(** * IGB heterogeneous multi-GPU training driver: [igb/train_multi_hetero.py]

    A shallow embedding of the worker function [run(proc_id, devices, g, args)],
    of the entry point that spawns the workers, and of the pieces of their
    environment that their behaviour depends on.

    Numbers.  Python floats (losses, accuracies, memory samples, clock
    readings, learning rates) are embedded as exact rationals [Q]; statements
    about them use [==] where two computations are compared.  Integers that
    the argument parser produces with [type=int] are [Z].

    Libraries.  torch, dgl, numpy and sklearn are not part of the repository.
    The numeric kernels (forward pass, loss, optimizer update, neighbour
    sampling, random shuffling, clock, memory counters) are the fields of the
    class [Torch]; every theorem holds for every instance.  The two library
    components whose behaviour some statements are about, the distributed
    [DataLoader] and the [StepLR] schedule, are written out below from the
    design document. *)

From Stdlib Require Import ZArith QArith Qround Qpower Lia Ascii DecimalString DecimalNat Sorted.
From stdpp Require Import base list gmap strings.

Local Open Scope Z_scope.
Local Open Scope nat_scope.

(** ** Python and numpy helpers *)

Definition node := nat.

Inductive exn :=
| ZeroDivisionError_division   (* [x / 0]: "division by zero" *)
| ZeroDivisionError_modulo     (* [x % 0]: "integer modulo by zero" *)
| ValueError_concatenate       (* np.concatenate([]): "need at least one array to concatenate" *)
| ValueError_int (literal : string)  (* int(literal): "invalid literal for int()" *)
| IndexError.                  (* devices[proc_id] out of range *)

Definition result (A : Type) : Type := exn + A.

Definition bind {A B} (m : result A) (k : A → result B) : result B :=
  match m with
  | inl e => inl e
  | inr a => k a
  end.

Notation "'let?' x := m 'in' k" := (bind m (λ x, k))
  (at level 10, x name, m at level 100, k at level 200, only parsing).
Notation "'let?' ' p := m 'in' k" := (bind m (λ x, let 'p := x in k))
  (at level 10, p pattern, m at level 100, k at level 200, only parsing).

(** [a < b] on floats. *)
Definition Qltb (a b : Q) : bool := negb (Qle_bool b a).

(** [sum(xs)]: left to right, starting from [0]. *)
Definition py_sum (xs : list Q) : Q := fold_left Qplus xs 0%Q.

(** [x / len(xs)] *)
Definition py_div_len {A} (x : Q) (xs : list A) : result Q :=
  match length xs with
  | O => inl ZeroDivisionError_division
  | S _ => inr (x / inject_Z (Z.of_nat (length xs)))%Q
  end.

(** [int(x)] on a float truncates toward zero. *)
Definition py_int (x : Q) : Z :=
  if Qltb x 0 then Qceiling x else Qfloor x.

(** [a % b] on ints; the sign of the result follows the divisor, as with
    [Z.modulo]; a zero divisor raises. *)
Definition py_mod (a b : Z) : result Z :=
  if (b =? 0)%Z then inl ZeroDivisionError_modulo else inr (a mod b)%Z.

(** [np.concatenate(arrays)] of one-dimensional arrays. *)
Definition np_concatenate {A} (arrays : list (list A)) : result (list A) :=
  match arrays with
  | [] => inl ValueError_concatenate
  | _ => inr (concat arrays)
  end.

(** [enumerate(xs, start)] *)
Fixpoint enumerate_from {A} (start : nat) (xs : list A) : list (nat * A) :=
  match xs with
  | [] => []
  | x :: xs' => (start, x) :: enumerate_from (S start) xs'
  end.

(** [torch.nonzero(mask, as_tuple=True)[0]]: the indices of the true entries,
    in increasing order. *)
Fixpoint nonzero_from (i : nat) (mask : list bool) : list node :=
  match mask with
  | [] => []
  | b :: mask' => if b then i :: nonzero_from (S i) mask' else nonzero_from (S i) mask'
  end.

Definition nonzero (mask : list bool) : list node := nonzero_from 0 mask.

(** [tensor.argmax()] of one row of scores: first index of the maximum. *)
Fixpoint argmax_from (best_i : nat) (best : Q) (i : nat) (row : list Q) : nat :=
  match row with
  | [] => best_i
  | x :: row' =>
      if Qltb best x then argmax_from i x (S i) row'
      else argmax_from best_i best (S i) row'
  end.

Definition argmax (row : list Q) : Z :=
  match row with
  | [] => 0%Z
  | x :: row' => Z.of_nat (argmax_from 0 x 1 row')
  end.

(** [sklearn.metrics.accuracy_score(y_true, y_pred)]: the fraction of
    positions at which the two label arrays agree. *)
Definition hits (y_true y_pred : list Z) : nat :=
  length (filter (λ p : Z * Z, p.1 = p.2) (zip y_true y_pred)).

Definition accuracy_score (y_true y_pred : list Z) : Q :=
  (inject_Z (Z.of_nat (hits y_true y_pred)) / inject_Z (Z.of_nat (length y_true)))%Q.

(** ** Lists of integers on the command line *)

(** [s.split(sep)] for a separator of one character. *)
Fixpoint str_split (sep : ascii) (s : string) : list string :=
  match s with
  | EmptyString => [EmptyString]
  | String c r =>
      if Ascii.eqb c sep then EmptyString :: str_split sep r
      else match str_split sep r with
           | f :: fs => String c f :: fs
           | [] => [String c EmptyString]
           end
  end.

(** The characters [int()] skips around an ASCII literal: space, tab, line
    feed, vertical tab, form feed, carriage return. *)
Definition is_space (c : ascii) : bool :=
  let n := nat_of_ascii c in
  (9 <=? n) && (n <=? 13) || (n =? 32).

Definition digit_of (c : ascii) : option Z :=
  let n := nat_of_ascii c in
  if (48 <=? n) && (n <=? 57) then Some (Z.of_nat (n - 48)) else None.

Fixpoint all_space (s : string) : bool :=
  match s with
  | EmptyString => true
  | String c r => is_space c && all_space r
  end.

Fixpoint lstrip (s : string) : string :=
  match s with
  | EmptyString => EmptyString
  | String c r => if is_space c then lstrip r else s
  end.

(** The digits of a literal after its first digit, whose value so far is
    [acc]: digits, single underscores between digits, then only
    whitespace. *)
Fixpoint int_digits (acc : Z) (s : string) : option Z :=
  match s with
  | EmptyString => Some acc
  | String c r =>
      match digit_of c with
      | Some d => int_digits (10 * acc + d) r
      | None =>
          if Ascii.eqb c "_" then
            match r with
            | String c' r' =>
                match digit_of c' with
                | Some d => int_digits (10 * acc + d) r'
                | None => None
                end
            | EmptyString => None
            end
          else if all_space s then Some acc else None
      end
  end.

(** [int(s)] on an ASCII string, base ten: whitespace, an optional sign,
    the digits, whitespace.  [None] is [ValueError].  (The cap that recent
    interpreters put on the number of digits is left out.) *)
Definition int_str (s : string) : option Z :=
  let s1 := lstrip s in
  let '(sign, s2) :=
    match s1 with
    | String c r =>
        if Ascii.eqb c "+" then (1%Z, r)
        else if Ascii.eqb c "-" then ((-1)%Z, r)
        else (1%Z, s1)
    | EmptyString => (1%Z, s1)
    end in
  match s2 with
  | String c r =>
      match digit_of c with
      | Some d => (λ v, (sign * v)%Z) <$> int_digits d r
      | None => None
      end
  | EmptyString => None
  end.

(** [[int(x) for x in fields]]: the first bad field raises. *)
Fixpoint int_each (fields : list string) : result (list Z) :=
  match fields with
  | [] => inr []
  | f :: fields' =>
      match int_str f with
      | None => inl (ValueError_int f)
      | Some z =>
          match int_each fields' with
          | inl e => inl e
          | inr zs => inr (z :: zs)
          end
      end
  end.

(** [[int(x) for x in s.split(',')]] (lines 35 and 224). *)
Definition parse_int_list (s : string) : result (list Z) :=
  int_each (str_split "," s).

(** ** The command line record and the graph *)

Inductive model_type_t := rgcn | rsage | rgat.

Record Args := {
  model_type : model_type_t;
  modelpath : string;
  model_save : Z;
  fan_out : string;
  batch_size : Z;
  learning_rate : Q;
  epochs : Z;
  sched_stepsize : nat;
  sched_gamma : Q;
  log_every : Z;
  gpu_devices : string;
}.

(** The part of the heterogeneous graph [g] that [run] reads: the masks and
    the labels of the nodes of the category [g.predict]. *)
Record Graph := {
  train_mask : list bool;
  val_mask : list bool;
  test_mask : list bool;
  label : node → Z;
}.

(** ** Step-decay schedule *)

(** Modelled from the spec: [optim.lr_scheduler.StepLR] belongs to torch and
    is not in the repository.  "Step-decay: multiply learning rate by a fixed
    factor every fixed number of epochs"; one call of [step] counts one epoch
    and "multiplies current rate by the decay factor once every fixed number
    of epochs". *)
Record StepLR := {
  step_size : nat;
  gamma : Q;
  last_epoch : nat;
  lr : Q;
}.

(** Modelled from the spec: [StepLR(optimizer, step_size, gamma)] of torch
    (not in the repository), at the optimizer's initial rate. *)
Definition StepLR_init (initial_rate : Q) (step_size : nat) (gamma : Q) : StepLR :=
  {| step_size := step_size; gamma := gamma; last_epoch := 0; lr := initial_rate |}.

(** Modelled from the spec: [sched.step()] of torch's [StepLR] (not in the
    repository): count the epoch and, "once every fixed number of epochs",
    multiply the "current rate by the decay factor". *)
Definition StepLR_step (s : StepLR) : StepLR :=
  let e := S (last_epoch s) in
  {| step_size := step_size s;
     gamma := gamma s;
     last_epoch := e;
     lr := if decide (e `mod` step_size s = 0) then (lr s * gamma s)%Q else lr s |}.

(** ** Events a worker emits *)

Inductive pipeline := TrainPipe | ValPipe | TestPipe.

Inductive line :=
| ModelSize (size_all_mb : Q)
| EpochLine (epoch : nat) (epoch_loss epoch_acc val_acc : Q) (seconds : Z) (epoch_gpu_mem : Q)
| TestAcc (test_acc : Q)
| TotalTime (seconds : Z).

Inductive event :=
| Forward (p : pipeline) (training grad : bool) (seeds : list node)
| OptimizerStep
| Save (path : string)
| Print (l : line).

(** Program points at which [time.time()] is read. *)
Inductive tick :=
| TrainingStart
| EpochStart (epoch : nat)
| EpochLog (epoch : nat)
| Finish.

(** ** What the libraries supply *)

(** The library functions that [run] calls and whose results it only passes
    on.  Scores are given row by row, one row per destination seed of a
    minibatch, so that a minibatch has as many predictions as labels.  The
    clock is read at the program points of [tick]. *)
Class Torch := {
  Model : Type;                (* the wrapped module and its optimizer state *)
  Blocks : Type;               (* the sampled blocks of one minibatch *)
  Rng : Type;                  (* random state *)
  manual_seed : Z → Rng;
  construct : model_type_t → Model;
  model_size_mb : Model → Q;
  (* MultiLayerNeighborSampler(fanouts) on a batch of seeds *)
  sample_blocks : list Z → Rng → list node → Blocks * Rng;
  (* random reordering of a seed sequence *)
  shuffle : Rng → list node → list node * Rng;
  shuffle_Permutation : ∀ r l, (shuffle r l).1 ≡ₚ l;
  (* model(blocks, inputs): the score row of one destination seed *)
  forward : Model → bool → Blocks → node → list Q;
  loss_fcn : list (list Q) → list Z → Q;
  (* zero_grad(); loss.backward(); optimizer.step() at the current rate *)
  optimizer_step : Model → Q → Blocks → list node → Model;
  cuda_is_available : bool;
  (* torch.cuda.max_memory_allocated at step [step] of epoch [epoch] *)
  max_memory_allocated : nat → nat → Q;
  time : tick → Q;
}.

(** ** The distributed minibatch pipeline *)

Section DataLoader.
Context `{Torch}.

(** What one iteration of a loader yields; the input node IDs, which [run]
    binds and never reads, are left out. *)
Record minibatch := { seeds : list node; blocks : Blocks }.

(** Modelled from the spec: [dgl.dataloading.DataLoader] with
    [use_ddp=True] is not in the repository.  The seed sequence is
    "partitioned deterministically and disjointly across workers", the
    partition is "even", "deterministic and stable", and each worker
    shuffles locally.  Worker [rank] of [world_size] takes a contiguous run
    of the sequence; the first [n mod world_size] workers take one seed
    more than the others. *)
Definition chunk_size (n world_size rank : nat) : nat :=
  n / world_size + (if decide (rank < n `mod` world_size) then 1 else 0).

(** Modelled from the spec: where the share of worker [rank] starts in the
    seed sequence of the library's [DataLoader] (not in the repository). *)
Definition chunk_offset (n world_size rank : nat) : nat :=
  rank * (n / world_size) + rank `min` (n `mod` world_size).

(** Modelled from the spec: the share of worker [rank] under the
    [use_ddp=True] contract of the library's [DataLoader] (not in the
    repository): "the union of what each worker sees equals the full target
    set, and intersections are empty". *)
Definition ddp_partition (world_size rank : nat) (nids : list node) : list node :=
  take (chunk_size (length nids) world_size rank)
       (drop (chunk_offset (length nids) world_size rank) nids).

(** Modelled from the spec: the batching of the library's [DataLoader]
    (not in the repository).  Consecutive batches of [batch_size] seeds;
    "batches that would be smaller than batch_size at sequence end are
    kept, not dropped" ([drop_last=False]).  The library refuses a batch
    size that is not positive; statements about batches assume a positive
    one. *)
Fixpoint batches_of (fuel batch_size : nat) (l : list node) : list (list node) :=
  match fuel, l with
  | S fuel', _ :: _ => take batch_size l :: batches_of fuel' batch_size (drop batch_size l)
  | _, _ => []
  end.

(** Modelled from the spec: the batches of a seed order, see [batches_of];
    the length of the order is fuel enough. *)
Definition batched (batch_size : nat) (l : list node) : list (list node) :=
  batches_of (length l) batch_size l.

(** Modelled from the spec: the library's [DataLoader] (not in the
    repository) hands each batch of seeds to the sampler, in turn, which
    draws its blocks "independently per node, per layer, per minibatch
    draw". *)
Fixpoint sample_all (fanouts : list Z) (r : Rng) (bs : list (list node))
  : list minibatch * Rng :=
  match bs with
  | [] => ([], r)
  | b :: bs' =>
      let '(blk, r1) := sample_blocks fanouts r b in
      let '(mbs, r2) := sample_all fanouts r1 bs' in
      ({| seeds := b; blocks := blk |} :: mbs, r2)
  end.

(** Modelled from the spec: the arguments of the library's [DataLoader]
    (not in the repository) that the traversal depends on: the seed IDs,
    the fan-outs of the sampler, the process group and rank that
    [use_ddp=True] refers to, the batch size and the shuffle flag;
    [drop_last] is [False] at all three uses. *)
Record DataLoader := {
  dl_indices : list node;
  dl_sampler : list Z;
  dl_world_size : nat;
  dl_rank : nat;
  dl_batch_size : nat;
  dl_shuffle : bool;
}.

(** Modelled from the spec: the seed order of one traversal of the
    library's [DataLoader] (not in the repository): the worker's share,
    reshuffled when [shuffle=True] ("train pipeline reshuffles seed order
    every epoch; validation/test pipelines preserve a fixed order";
    "every worker's local shuffle still yields full coverage"). *)
Definition dl_order (dl : DataLoader) (r : Rng) : list node * Rng :=
  let part := ddp_partition (dl_world_size dl) (dl_rank dl) (dl_indices dl) in
  if dl_shuffle dl then shuffle r part else (part, r).

(** Modelled from the spec: one traversal ([for ... in dataloader]) of
    the library's [DataLoader] (not in the repository), from random state
    [r]: "a lazy, finite sequence of minibatches". *)
Definition dl_iter (dl : DataLoader) (r : Rng) : list minibatch * Rng :=
  let '(order, r1) := dl_order dl r in
  sample_all (dl_sampler dl) r1 (batched (dl_batch_size dl) order).

(** The seeds a traversal went through, batch by batch. *)
Definition traversal (dl : DataLoader) (r : Rng) : list (list node) :=
  map seeds (dl_iter dl r).1.

(** The seeds worker [rank] goes through in an epoch that it starts in
    random state [rngs rank]. *)
Definition epoch_seeds (nids : list node) (fanouts : list Z) (world_size batch_size : nat)
    (shuffle : bool) (rngs : nat → Rng) (rank : nat) : list node :=
  concat (traversal {| dl_indices := nids; dl_sampler := fanouts;
                       dl_world_size := world_size; dl_rank := rank;
                       dl_batch_size := batch_size; dl_shuffle := shuffle |} (rngs rank)).

(** The share of a loader's worker. *)
Definition dl_share (dl : DataLoader) : list node :=
  ddp_partition (dl_world_size dl) (dl_rank dl) (dl_indices dl).
End DataLoader.

(** ** The worker *)

Section Driver.
Context `{Torch}.

(** The mutable things a worker holds: the module (with its mode flag),
    the random state, the schedule, the local [best_accuracy], the files
    written with [torch.save], and what went to the terminal and to the
    device so far. *)
Record state := {
  model : Model;
  training : bool;
  rng : Rng;
  sched : StepLR;
  best_accuracy : Q;
  files : gmap string Model;
  out : list event;
}.

Definition set_model (m : Model) (st : state) : state :=
  {| model := m; training := training st; rng := rng st; sched := sched st;
     best_accuracy := best_accuracy st; files := files st; out := out st |}.

Definition set_training (b : bool) (st : state) : state :=
  {| model := model st; training := b; rng := rng st; sched := sched st;
     best_accuracy := best_accuracy st; files := files st; out := out st |}.

Definition set_rng (r : Rng) (st : state) : state :=
  {| model := model st; training := training st; rng := r; sched := sched st;
     best_accuracy := best_accuracy st; files := files st; out := out st |}.

Definition set_sched (s : StepLR) (st : state) : state :=
  {| model := model st; training := training st; rng := rng st; sched := s;
     best_accuracy := best_accuracy st; files := files st; out := out st |}.

Definition set_best_accuracy (a : Q) (st : state) : state :=
  {| model := model st; training := training st; rng := rng st; sched := sched st;
     best_accuracy := a; files := files st; out := out st |}.

Definition set_files (fs : gmap string Model) (st : state) : state :=
  {| model := model st; training := training st; rng := rng st; sched := sched st;
     best_accuracy := best_accuracy st; files := fs; out := out st |}.

Definition emit (e : event) (st : state) : state :=
  {| model := model st; training := training st; rng := rng st; sched := sched st;
     best_accuracy := best_accuracy st; files := files st; out := out st ++ [e] |}.

(** Several events in a row. *)
Definition emits (es : list event) (st : state) : state :=
  {| model := model st; training := training st; rng := rng st; sched := sched st;
     best_accuracy := best_accuracy st; files := files st; out := out st ++ es |}.

(** [torch.save(model.state_dict(), path)] *)
Definition torch_save (path : string) (st : state) : state :=
  emit (Save path) (set_files (<[path := model st]> (files st)) st).

Variable g : Graph.
Variable args : Args.
Variable proc_id : nat.
Variables train_dataloader val_dataloader test_dataloader : Rng → list minibatch * Rng.

(** The accumulators of one epoch (lines 106-111). *)
Record epoch_vars := {
  epoch_loss : Q;
  accs : list Q;
  gpu_mem_alloc : list Q;
}.

Definition batch_labels (mb : minibatch) : list Z := map (label g) (seeds mb).

Definition batch_pred (st : state) (mb : minibatch) : list (list Q) :=
  map (forward (model st) (training st) (blocks mb)) (seeds mb).

(** The body of the loop over [train_dataloader] (lines 113-130). *)
Definition train_step (epoch : nat) (vs : epoch_vars * state) (it : nat * minibatch)
  : epoch_vars * state :=
  let '(v, st) := vs in
  let '(step, mb) := it in
  let pred := batch_pred st mb in
  let loss := loss_fcn pred (batch_labels mb) in
  let st1 := emit (Forward TrainPipe (training st) true (seeds mb)) st in
  let st2 := set_model (optimizer_step (model st) (lr (sched st)) (blocks mb) (seeds mb)) st1 in
  let st3 := emit OptimizerStep st2 in
  ({| epoch_loss := (epoch_loss v + loss)%Q;
      accs := accs v ++ [(accuracy_score (batch_labels mb) (map argmax pred) * 100)%Q];
      gpu_mem_alloc := gpu_mem_alloc v ++
        [if cuda_is_available then (max_memory_allocated epoch step / 1000000)%Q else 0%Q] |},
   st3).

(** Lines 106-133. *)
Definition train_epoch (epoch : nat) (st : state) : result (Q * Q * Q * state) :=
  let st := set_training true st in
  let '(mbs, r) := train_dataloader (rng st) in
  let st := set_rng r st in
  let '(v, st) :=
    fold_left (train_step epoch) (enumerate_from 0 mbs)
      ({| epoch_loss := 0; accs := []; gpu_mem_alloc := [] |}, st) in
  let? epoch_acc := py_div_len (py_sum (accs v)) (accs v) in
  let? epoch_gpu_mem := py_div_len (py_sum (gpu_mem_alloc v)) (gpu_mem_alloc v) in
  inr (epoch_loss v, epoch_acc, epoch_gpu_mem, st).

(** The loop under [torch.no_grad()] (lines 141-145 and 172-176). *)
Definition eval_step (p : pipeline) (a : list (list Z) * list (list Z) * state)
    (mb : minibatch) : list (list Z) * list (list Z) * state :=
  let '(labels, predictions, st) := a in
  (labels ++ [batch_labels mb],
   predictions ++ [map argmax (batch_pred st mb)],
   emit (Forward p (training st) false (seeds mb)) st).

(** Lines 138-148 and 169-179. *)
Definition evaluate (p : pipeline) (dataloader : Rng → list minibatch * Rng)
    (st : state) : result (Q * state) :=
  let '(mbs, r) := dataloader (rng st) in
  let st := set_rng r st in
  let '(labels, predictions, st) := fold_left (eval_step p) mbs ([], [], st) in
  let? predictions := np_concatenate predictions in
  let? labels := np_concatenate labels in
  inr ((accuracy_score labels predictions * 100)%Q, st).

(** Lines 149-152. *)
Definition update_best (val_acc : Q) (st : state) : state :=
  if Qltb (best_accuracy st) val_acc then
    let st := set_best_accuracy val_acc st in
    if decide (model_save args ≠ 0%Z) then torch_save (modelpath args) st else st
  else st.

(** Lines 136-163. *)
Definition validate (epoch : nat) (epoch_loss epoch_acc epoch_gpu_mem : Q) (st : state)
  : result state :=
  if decide (proc_id = 0) then
    let? m := py_mod (Z.of_nat epoch) (log_every args) in
    if decide (m = 0%Z) then
      let? '(val_acc, st) := evaluate ValPipe val_dataloader st in
      let st := update_best val_acc st in
      inr (emit (Print (EpochLine epoch epoch_loss epoch_acc val_acc
                          (py_int (time (EpochLog epoch) - time (EpochStart epoch)))
                          epoch_gpu_mem)) st)
    else inr st
  else inr st.

(** One pass of the loop over epochs (lines 104-165). *)
Definition epoch_body (epoch : nat) (st : state) : result state :=
  let? '(epoch_loss, epoch_acc, epoch_gpu_mem, st) := train_epoch epoch st in
  let st := set_training false st in
  let? st := validate epoch epoch_loss epoch_acc epoch_gpu_mem st in
  inr (set_sched (StepLR_step (sched st)) st).

Fixpoint training_loop (es : list nat) (st : state) : result state :=
  match es with
  | [] => inr st
  | epoch :: es' => let? st := epoch_body epoch st in training_loop es' st
  end.

(** Lines 167-181. *)
Definition final_test (st : state) : result state :=
  let st := set_training false st in
  if decide (proc_id = 0) then
    let? '(test_acc, st) := evaluate TestPipe test_dataloader st in
    let st := emit (Print (TestAcc test_acc)) st in
    inr (emit (Print (TotalTime (py_int (time Finish - time TrainingStart)))) st)
  else inr st.

(** Lines 63-101: the module, the optimizer, the schedule, the tracker. *)
Definition init (fs : gmap string Model) : state :=
  let m := construct (model_type args) in
  {| model := m;
     training := true;
     rng := manual_seed 0;
     sched := StepLR_init (learning_rate args) (sched_stepsize args) (sched_gamma args);
     best_accuracy := 0;
     files := fs;
     out := if decide (proc_id = 0) then [Print (ModelSize (model_size_mb m))] else [] |}.

(** [range(args.epochs)] *)
Definition epoch_range : list nat := seq 0 (Z.to_nat (epochs args)).

(** Lines 63-181, from the files [fs] present when the worker starts. *)
Definition worker (fs : gmap string Model) : result state :=
  let? st := training_loop epoch_range (init fs) in
  final_test st.
End Driver.

(** The three loaders of lines 45-61, all over the sampler of line 34:
    [use_ddp=True] over the process group of [devices], [drop_last=False]. *)
Definition loader (proc_id : nat) (devices : list Z) (args : Args) (sampler : list Z)
    (nid : list node) (shuffle : bool) : DataLoader :=
  {| dl_indices := nid; dl_sampler := sampler;
     dl_world_size := length devices; dl_rank := proc_id;
     dl_batch_size := Z.to_nat (batch_size args); dl_shuffle := shuffle |}.

Definition train_nid (g : Graph) : list node := nonzero (train_mask g).
Definition val_nid (g : Graph) : list node := nonzero (val_mask g).
Definition test_nid (g : Graph) : list node := nonzero (test_mask g).

(** [run(proc_id, devices, g, args)]: the device of the worker (line 20),
    the fan-outs of the sampler (line 35), the three loaders (lines 45-61)
    and the rest (lines 63-181).  Joining the process group (lines 21-30)
    is left to the library. *)
Definition run `{Torch} (proc_id : nat) (devices : list Z) (g : Graph) (args : Args)
    (fs : gmap string Model) : result state :=
  match devices !! proc_id with
  | None => inl IndexError
  | Some dev_id =>
      let? sampler := parse_int_list (fan_out args) in
      worker g args proc_id
        (dl_iter (loader proc_id devices args sampler (train_nid g) true))
        (dl_iter (loader proc_id devices args sampler (val_nid g) false))
        (dl_iter (loader proc_id devices args sampler (test_nid g) false))
        fs
  end.

(** ** Observations on traces *)

Definition is_Save (e : event) : bool :=
  match e with Save _ => true | _ => false end.

Definition is_train_minibatch (e : event) : bool :=
  match e with Forward TrainPipe _ _ _ => true | _ => false end.

Definition is_evaluation (e : event) : bool :=
  match e with Forward ValPipe _ _ _ | Forward TestPipe _ _ _ => true | _ => false end.

Definition is_test_minibatch (e : event) : bool :=
  match e with Forward TestPipe _ _ _ => true | _ => false end.

Definition is_Print (e : event) : bool :=
  match e with Print _ => true | _ => false end.

Definition is_EpochLine (e : event) : bool :=
  match e with Print (EpochLine _ _ _ _ _ _) => true | _ => false end.

Definition is_TestAcc (e : event) : bool :=
  match e with Print (TestAcc _) => true | _ => false end.

Definition is_TotalTime (e : event) : bool :=
  match e with Print (TotalTime _) => true | _ => false end.

Definition count (f : event → bool) (l : list event) : nat :=
  length (filter (λ e, f e = true) l).

Section Feeding.
Context `{Torch}.
Variable args : Args.

(** Validation accuracies handed one after the other to the checkpoint
    policy of lines 149-152; the steps, counted from [step], at which a
    file was written. *)
Fixpoint write_steps (step : nat) (vals : list Q) (st : state) : list nat :=
  match vals with
  | [] => []
  | v :: vals' =>
      let st' := update_best args v st in
      (if decide (count is_Save (out st) < count is_Save (out st')) then [step] else [])
      ++ write_steps (S step) vals' st'
  end.

(** The tracker after each of the values. *)
Fixpoint tracker_after (vals : list Q) (st : state) : list Q :=
  match vals with
  | [] => []
  | v :: vals' =>
      let st' := update_best args v st in
      best_accuracy st' :: tracker_after vals' st'
  end.
End Feeding.

(** ** Reference descriptions *)

Section Reference.
Context `{Torch}.
Variable g : Graph.
Variable args : Args.

(** What the training events of a list of minibatches look like. *)
Definition train_events (mbs : list minibatch) : list event :=
  flat_map (λ mb, [Forward TrainPipe true true (seeds mb); OptimizerStep]) mbs.

(** What draining a validation or test pipeline looks like. *)
Definition eval_events (p : pipeline) (mbs : list minibatch) : list event :=
  map (λ mb, Forward p false false (seeds mb)) mbs.

(** The module after the optimizer steps of a list of minibatches. *)
Definition model_after (rate : Q) (mbs : list minibatch) (m : Model) : Model :=
  fold_left (λ m mb, optimizer_step m rate (blocks mb) (seeds mb)) mbs m.

(** The module each minibatch of an epoch is run on. *)
Fixpoint models_along (rate : Q) (mbs : list minibatch) (m : Model) : list Model :=
  match mbs with
  | [] => []
  | mb :: mbs' => m :: models_along rate mbs' (optimizer_step m rate (blocks mb) (seeds mb))
  end.

(** Score row of seed [n] of minibatch [mb] on module [m] in mode [mode]. *)
Definition scores (mode : bool) (m : Model) (mb : minibatch) (n : node) : list Q :=
  forward m mode (blocks mb) n.

(** Cross-entropy of a training minibatch. *)
Definition batch_loss (m : Model) (mb : minibatch) : Q :=
  loss_fcn (map (scores true m mb) (seeds mb)) (map (label g) (seeds mb)).

(** Seeds of a list whose argmax prediction is their label. *)
Definition right_seeds (mode : bool) (m : Model) (mb : minibatch) : list node :=
  filter (λ n, argmax (scores mode m mb n) = label g n) (seeds mb).

(** "Fraction of correctly argmax-predicted labels x100" of a training
    minibatch. *)
Definition batch_accuracy (m : Model) (mb : minibatch) : Q :=
  (inject_Z (Z.of_nat (length (right_seeds true m mb)))
   / inject_Z (Z.of_nat (length (seeds mb))) * 100)%Q.

(** The peak-memory sample taken at a step. *)
Definition memory_sample (epoch step : nat) : Q :=
  if cuda_is_available then (max_memory_allocated epoch step / 1000000)%Q else 0%Q.

Definition total (xs : list Q) : Q := foldr Qplus 0%Q xs.

(** Arithmetic mean. *)
Definition mean (xs : list Q) : Q := (total xs / inject_Z (Z.of_nat (length xs)))%Q.

(** Accuracy, in percent, of module [m] in evaluation mode over all the
    seeds of the minibatches [mbs] taken together. *)
Definition overall_accuracy (m : Model) (mbs : list minibatch) : Q :=
  (inject_Z (Z.of_nat (length (flat_map (right_seeds false m) mbs)))
   / inject_Z (Z.of_nat (length (flat_map seeds mbs))) * 100)%Q.

(** The per-batch losses, accuracies and memory samples of an epoch whose
    train pipeline yields [mbs], on a worker in state [st]. *)
Definition train_losses (st : state) (mbs : list minibatch) : list Q :=
  zip_with batch_loss (models_along (lr (sched st)) mbs (model st)) mbs.

Definition train_accs (st : state) (mbs : list minibatch) : list Q :=
  zip_with batch_accuracy (models_along (lr (sched st)) mbs (model st)) mbs.

Definition train_mems (epoch : nat) (mbs : list minibatch) : list Q :=
  map (λ it : nat * minibatch, memory_sample epoch it.1) (enumerate_from 0 mbs).

(** The worker after the loop over the train pipeline, which left the
    random state [r]. *)
Definition after_training (r : Rng) (mbs : list minibatch) (st : state) : state :=
  emits (train_events mbs)
    (set_model (model_after (lr (sched st)) mbs (model st)) (set_rng r (set_training true st))).

(** What the checkpoint policy adds to the trace when it is handed
    [val_acc]. *)
Definition save_events (val_acc : Q) (st : state) : list event :=
  if Qltb (best_accuracy st) val_acc && bool_decide (model_save args ≠ 0%Z)
  then [Save (modelpath args)] else [].

(** The seconds shown on the log line of an epoch. *)
Definition epoch_seconds (epoch : nat) : Z :=
  py_int (time (EpochLog epoch) - time (EpochStart epoch)).

(** The worker after an evaluation over the validation minibatches [vbs]
    that left the random state [r], and after the log line. *)
Definition after_validation (epoch : nat) (L A M : Q) (vbs : list minibatch) (r : Rng)
    (st : state) : state :=
  let val_acc := overall_accuracy (model st) vbs in
  emit (Print (EpochLine epoch L A val_acc (epoch_seconds epoch) M))
    (update_best args val_acc (emits (eval_events ValPipe vbs) (set_rng r st))).

(** The seconds shown on the last line of the run. *)
Definition total_seconds : Z := py_int (time Finish - time TrainingStart).

(** Events of the epoch loop, as opposed to those of the final test. *)
Definition is_epoch_event (e : event) : bool :=
  match e with
  | Forward TrainPipe _ _ _ | Forward ValPipe _ _ _ | OptimizerStep | Save _
  | Print (EpochLine _ _ _ _ _ _) => true
  | _ => false
  end.
End Reference.

(** ** A small instance *)

Module Toy.
(** The module is the number of optimizer steps taken; a seed is scored
    by its parity, shifted by that number.  Shuffling reverses the sequence
    at even random states and advances the state. *)
#[global] Instance torch : Torch := {|
  Model := nat;
  Blocks := unit;
  Rng := nat;
  manual_seed z := Z.to_nat z;
  construct _ := 0;
  model_size_mb _ := 1%Q;
  sample_blocks _ r _ := (tt, r);
  shuffle r l := (if Nat.even r then reverse l else l, S r);
  shuffle_Permutation r l :=
    match Nat.even r as b return (if b then reverse l else l) ≡ₚ l with
    | true => reverse_Permutation l
    | false => reflexivity l
    end;
  forward m _ _ n :=
    [inject_Z (Z.of_nat (n `mod` 2)); inject_Z (Z.of_nat ((n + m) `mod` 3))];
  loss_fcn _ _ := (1 # 2)%Q;
  optimizer_step m _ _ _ := S m;
  cuda_is_available := false;
  max_memory_allocated _ _ := 0%Q;
  time t :=
    match t with
    | TrainingStart => 0%Q
    | EpochStart e => inject_Z (Z.of_nat (10 * e))
    | EpochLog e => inject_Z (Z.of_nat (10 * e + 7))
    | Finish => 1000%Q
    end;
|}.

Definition args : Args := {|
  model_type := rgat;
  modelpath := "deletethis.pt";
  model_save := 1;
  fan_out := "2,2";
  batch_size := 10;
  learning_rate := (1 # 100)%Q;
  epochs := 1;
  sched_stepsize := 25;
  sched_gamma := (1 # 4)%Q;
  log_every := 5;
  gpu_devices := "0,1";
|}.

(** 100 nodes: 70 train, 15 validation, 15 test. *)
Definition g : Graph := {|
  train_mask := replicate 70 true ++ replicate 30 false;
  val_mask := replicate 70 false ++ replicate 15 true ++ replicate 15 false;
  test_mask := replicate 85 false ++ replicate 15 true;
  label n := Z.of_nat (n `mod` 2);
|}.

Definition devices : list Z := [0%Z; 1%Z].

(** The fan-outs of [--fan_out 2,2]. *)
Definition sampler : list Z := [2%Z; 2%Z].

(** The same run over 60 epochs. *)
Definition args60 : Args := {|
  model_type := rgat;
  modelpath := "deletethis.pt";
  model_save := 1;
  fan_out := "2,2";
  batch_size := 10;
  learning_rate := 0.01%Q;
  epochs := 60;
  sched_stepsize := 25;
  sched_gamma := 0.25%Q;
  log_every := 5;
  gpu_devices := "0,1";
|}.

(** The loaders of worker [p], its state before the first epoch, and its
    state after the train loop of the first epoch and [model.eval()]. *)
Definition tdl (p : nat) : Rng → list minibatch * Rng :=
  dl_iter (loader p devices args sampler (train_nid g) true).

Definition vdl (p : nat) : Rng → list minibatch * Rng :=
  dl_iter (loader p devices args sampler (val_nid g) false).

Definition sdl (p : nat) : Rng → list minibatch * Rng :=
  dl_iter (loader p devices args sampler (test_nid g) false).

Definition start (p : nat) : state := init args p ∅.

Definition trained (p : nat) : state :=
  set_training false
    (after_training (tdl p (rng (start p))).2 (tdl p (rng (start p))).1 (start p)).


End Toy.


(** ** The command line and the spawn *)

(** How the entry point can end before any worker runs. *)
Inductive main_exn :=
| SystemExit_invalid_int (arg : string)   (* argparse: "invalid int value" *)
| SystemExit (status : Z)                 (* any other exit of argparse: usage (2), --help (0) *)
| Raised (e : exn)                        (* line 224 *)
| DatasetError.                           (* lines 226-227 *)

(** An option declared with [type=int] and a default that is not a string
    (lines 209-210: [--learning_rate], [--decay]).  Without the option the
    default is taken as it is; with it, the argument goes through [int]. *)
Definition argparse_type_int (default : Q) (given : option string) : main_exn + Q :=
  match given with
  | None => inr default
  | Some s =>
      match int_str s with
      | Some z => inr (inject_Z z)
      | None => inl (SystemExit_invalid_int s)
      end
  end.

(** The entry point (lines 183-231).  [parse_args] is what
    [parser.parse_args()] of line 222 ends with: the namespace, or the exit
    of argparse on a command line it refuses.  [IGBHeteroDGLDataset] is the
    dataset class of the module [dataloader], which is not in the
    repository: the graph [dataset[0]] that it yields for a namespace, or
    nothing when building or indexing it raises.  Then [mp.spawn] calls
    [run(i, gpu_idx, g, args)] for each [i] in [range(num_gpus)]; the
    result is the outcome of each worker.  What the parent prints
    ([print(g)]) is not recorded. *)
Definition main `{Torch} (parse_args : main_exn + Args)
    (IGBHeteroDGLDataset : Args → option Graph) (fs : gmap string Model)
  : main_exn + list (result state) :=
  match parse_args with
  | inl e => inl e
  | inr args =>
      match parse_int_list (gpu_devices args) with
      | inl e => inl (Raised e)
      | inr gpu_idx =>
          let num_gpus := length gpu_idx in
          match IGBHeteroDGLDataset args with
          | None => inl DatasetError
          | Some g => inr (map (λ proc_id, run proc_id gpu_idx g args fs) (seq 0 num_gpus))
          end
      end
  end.

(** Occurrences of a character, the comma-joined rendering of numbers. *)
Fixpoint count_char (c : ascii) (s : string) : nat :=
  match s with
  | EmptyString => 0
  | String c' r => (if Ascii.eqb c' c then 1 else 0) + count_char c r
  end.

Definition decimal (n : nat) : string := NilEmpty.string_of_uint (Nat.to_uint n).

Fixpoint join_commas (fields : list string) : string :=
  match fields with
  | [] => EmptyString
  | [f] => f
  | f :: fields' => f +:+ String "," (join_commas fields')
  end.

(** ** Reading a trace *)

(** The validation accuracies and the memory figures on the epoch lines of
    a trace, in the order they were logged. *)
Definition val_accs (l : list event) : list Q :=
  omap (λ e, match e with Print (EpochLine _ _ _ v _ _) => Some v | _ => None end) l.

Definition epoch_mems (l : list event) : list Q :=
  omap (λ e, match e with Print (EpochLine _ _ _ _ _ m) => Some m | _ => None end) l.

(** The epochs on the epoch lines of a trace. *)
Definition logged_epochs (l : list event) : list nat :=
  omap (λ e, match e with Print (EpochLine ep _ _ _ _ _) => Some ep | _ => None end) l.



(** A forward pass in the mode its pipeline calls for: training mode with
    gradients on the train pipeline, evaluation mode without gradients on
    the other two. *)
Definition mode_ok (e : event) : bool :=
  match e with
  | Forward TrainPipe t gr _ => t && gr
  | Forward _ t gr _ => negb t && negb gr
  | _ => true
  end.

Definition is_OptimizerStep (e : event) : bool :=
  match e with OptimizerStep => true | _ => false end.

Section Invariants.
Context `{Torch}.
Variable args : Args.
Variable proc_id : nat.

(** The tracker bounds every validation accuracy logged so far and is zero
    or one of them. *)
Definition tracker_is_max (st : state) : Prop :=
  (∀ v, v ∈ val_accs (out st) → (v <= best_accuracy st)%Q) ∧
  (best_accuracy st = 0%Q ∨ best_accuracy st ∈ val_accs (out st)).

(** The tracker and the logged validation accuracies are percentages. *)
Definition percentages (st : state) : Prop :=
  (0 <= best_accuracy st)%Q ∧ (best_accuracy st <= 100)%Q ∧
  Forall (λ v, (0 <= v)%Q ∧ (v <= 100)%Q) (val_accs (out st)).

(** Of the files [fs] the worker started with, only the one at
    [modelpath] can have changed, and none on a worker that is not the
    leader or when [model_save] is off. *)
Definition only_checkpoint (fs : gmap string Model) (st : state) : Prop :=
  (∀ p, p ≠ modelpath args → files st !! p = fs !! p) ∧
  Forall (λ e, ∀ p, e = Save p → p = modelpath args) (out st) ∧
  (proc_id ≠ 0 ∨ model_save args = 0%Z → files st = fs ∧ count is_Save (out st) = 0).

(** With [model_save] on: nothing saved and the tracker still zero, or
    something saved, the tracker above zero and a file at [modelpath]. *)
Definition checkpoint_tracks (fs : gmap string Model) (st : state) : Prop :=
  (count is_Save (out st) = 0 ∧ best_accuracy st = 0%Q ∧ files st = fs) ∨
  (0 < count is_Save (out st) ∧ (0 < best_accuracy st)%Q ∧
   is_Some (files st !! modelpath args)).

Definition modes_ok (st : state) : Prop := Forall (λ e, mode_ok e = true) (out st).

Definition no_gpu_memory (st : state) : Prop :=
  Forall (λ m, (m == 0)%Q) (epoch_mems (out st)).
End Invariants.

(** ** The small instance at the edges *)

Module ToyEdge.
(** [--log_every 0] *)
Definition args_nolog : Args := {|
  model_type := rgat;
  modelpath := "deletethis.pt";
  model_save := 1;
  fan_out := "2,2";
  batch_size := 10;
  learning_rate := (1 # 100)%Q;
  epochs := 1;
  sched_stepsize := 25;
  sched_gamma := (1 # 4)%Q;
  log_every := 0;
  gpu_devices := "0,1";
|}.



(** [--fan_out 2,x] *)
Definition args_badfan : Args := {|
  model_type := rgat;
  modelpath := "deletethis.pt";
  model_save := 1;
  fan_out := "2,x";
  batch_size := 10;
  learning_rate := (1 # 100)%Q;
  epochs := 1;
  sched_stepsize := 25;
  sched_gamma := (1 # 4)%Q;
  log_every := 5;
  gpu_devices := "0,1";
|}.

(** [--epochs 0] *)
Definition args_noepoch : Args := {|
  model_type := rgat;
  modelpath := "deletethis.pt";
  model_save := 1;
  fan_out := "2,2";
  batch_size := 10;
  learning_rate := (1 # 100)%Q;
  epochs := 0;
  sched_stepsize := 25;
  sched_gamma := (1 # 4)%Q;
  log_every := 5;
  gpu_devices := "0,1";
|}.
End ToyEdge.

(** * Properties *)

(** ** The helpers on small inputs *)

Example nonzero_example : nonzero [false; true; true; false; true] = [1; 2; 4].
Proof. reflexivity. Qed.

Example argmax_example : argmax [0.1; 0.7; 0.7; 0.2]%Q = 1%Z.
Proof. reflexivity. Qed.

Example accuracy_score_example : (accuracy_score [1; 0; 2; 2]%Z [1; 1; 2; 0]%Z * 100 == 50)%Q.
Proof. reflexivity. Qed.

Example py_int_example : py_int (-7 # 2) = (-3)%Z ∧ py_int (7 # 2) = 3%Z.
Proof. split; reflexivity. Qed.

Example py_mod_example :
  py_mod 7 (-5) = inr (-3)%Z ∧ py_mod 7 0 = inl ZeroDivisionError_modulo.
Proof. split; reflexivity. Qed.

Example np_concatenate_example :
  np_concatenate [[1; 2]; [3]] = inr [1; 2; 3] ∧
  np_concatenate (A := nat) [] = inl ValueError_concatenate.
Proof. split; reflexivity. Qed.

Example batched_example : batched 3 [1; 2; 3; 4; 5; 6; 7] = [[1; 2; 3]; [4; 5; 6]; [7]].
Proof. reflexivity. Qed.

Example ddp_partition_example :
  map (λ rank, ddp_partition 2 rank [10; 11; 12; 13; 14]) [0; 1] = [[10; 11; 12]; [13; 14]].
Proof. reflexivity. Qed.

Example StepLR_step_example :
  lr (Nat.iter 24 StepLR_step (StepLR_init 0.01 25 0.25)) = 0.01%Q ∧
  (lr (Nat.iter 25 StepLR_step (StepLR_init 0.01 25 0.25)) == 0.0025)%Q.
Proof. split; reflexivity. Qed.

(** ** Counting, comparing, summing *)

Lemma count_app f l k : count f (l ++ k) = count f l + count f k.
Proof. unfold count. by rewrite filter_app, length_app. Qed.

Lemma count_cons f e l : count f (e :: l) = (if f e then 1 else 0) + count f l.
Proof.
  unfold count. destruct (f e) eqn:E.
  - by rewrite filter_cons_True.
  - rewrite filter_cons_False; [done | congruence].
Qed.

Lemma count_none f l : Forall (λ e, f e = false) l → count f l = 0.
Proof.
  induction 1 as [|e l He _ IH]; [done|].
  by rewrite count_cons, He, IH.
Qed.

Lemma Qltb_lt a b : Qltb a b = true ↔ (a < b)%Q.
Proof.
  unfold Qltb. rewrite negb_true_iff, <- not_true_iff_false, Qle_bool_iff.
  split; [apply Qnot_le_lt | apply Qlt_not_le].
Qed.

Lemma Qltb_ge a b : Qltb a b = false ↔ (b <= a)%Q.
Proof. unfold Qltb. rewrite negb_false_iff. apply Qle_bool_iff. Qed.

Lemma hits_app l1 l2 k1 k2 :
  length l1 = length k1 → hits (l1 ++ l2) (k1 ++ k2) = hits l1 k1 + hits l2 k2.
Proof.
  intros E. unfold hits. rewrite zip_with_app by done.
  by rewrite filter_app, length_app.
Qed.

Lemma hits_map {A} (f h : A → Z) (l : list A) :
  hits (map f l) (map h l) = length (filter (λ x, h x = f x) l).
Proof.
  unfold hits. induction l as [|x l IH]; [done|]. simpl.
  destruct (decide (h x = f x)) as [E|E].
  - rewrite filter_cons_True by (simpl; congruence).
    rewrite (filter_cons_True (λ x, h x = f x)) by done. simpl. by rewrite <- IH.
  - rewrite filter_cons_False by (simpl; congruence).
    by rewrite (filter_cons_False (λ x, h x = f x)).
Qed.

Lemma py_sum_from (xs : list Q) (a : Q) : (fold_left Qplus xs a == a + total xs)%Q.
Proof.
  revert a. induction xs as [|x xs IH]; intros a; simpl.
  - ring.
  - rewrite IH. ring.
Qed.

Lemma py_sum_total (xs : list Q) : (py_sum xs == total xs)%Q.
Proof. unfold py_sum. rewrite py_sum_from. ring. Qed.

Lemma py_div_len_mean (xs : list Q) :
  xs ≠ [] → ∃ q, py_div_len (py_sum xs) xs = inr q ∧ (q == mean xs)%Q.
Proof.
  intros Hne. unfold py_div_len, mean.
  destruct xs as [|x xs]; [done|]. eexists; split; [reflexivity|].
  by rewrite py_sum_total.
Qed.

(** ** The loops over the pipelines *)

Section LoopFacts.
Context `{Torch}.
Variable g : Graph.

Lemma emits_nil (st : state) : emits [] st = st.
Proof. destruct st. unfold emits. simpl. by rewrite app_nil_r. Qed.

Lemma emits_emit e es (st : state) : emits es (emit e st) = emits (e :: es) st.
Proof. unfold emits, emit. simpl. by rewrite <- app_assoc. Qed.

Lemma emit_emits e es (st : state) : emit e (emits es st) = emits (es ++ [e]) st.
Proof. unfold emits, emit. simpl. by rewrite <- app_assoc. Qed.

Lemma emits_emits es es' (st : state) : emits es' (emits es st) = emits (es ++ es') st.
Proof. unfold emits. simpl. by rewrite <- app_assoc. Qed.

Lemma train_accuracy (st : state) mb :
  training st = true →
  (accuracy_score (batch_labels g mb) (map argmax (batch_pred st mb)) * 100)%Q
  = batch_accuracy g (model st) mb.
Proof.
  intros Ht. unfold accuracy_score, batch_accuracy, batch_labels, batch_pred, right_seeds, scores.
  rewrite Ht, map_map, length_map, hits_map. reflexivity.
Qed.

(** The accumulators and the worker after the loop over the train
    pipeline, started at step [k] in training mode. *)
Lemma train_fold epoch k (mbs : list minibatch) v (st : state) :
  training st = true →
  fold_left (train_step g epoch) (enumerate_from k mbs) (v, st) =
  ({| epoch_loss :=
        fold_left Qplus
          (zip_with (batch_loss g) (models_along (lr (sched st)) mbs (model st)) mbs)
          (epoch_loss v);
      accs := accs v ++
        zip_with (batch_accuracy g) (models_along (lr (sched st)) mbs (model st)) mbs;
      gpu_mem_alloc := gpu_mem_alloc v ++
        map (λ it, memory_sample epoch it.1) (enumerate_from k mbs) |},
   emits (train_events mbs) (set_model (model_after (lr (sched st)) mbs (model st)) st)).
Proof.
  revert k v st. induction mbs as [|mb mbs IH]; intros k v st Ht.
  - simpl. rewrite !app_nil_r. unfold train_events. simpl. rewrite emits_nil.
    by destruct v, st.
  - simpl. rewrite IH by done. simpl. rewrite train_accuracy by done.
    rewrite <- !app_assoc. simpl. f_equal.
    + unfold batch_loss, scores, batch_pred, batch_labels, memory_sample.
      by rewrite Ht.
    + unfold emits, set_model, emit, train_events. simpl. rewrite Ht.
      by rewrite <- !app_assoc.
Qed.

Lemma eval_fold p (mbs : list minibatch) labels predictions (st : state) :
  training st = false →
  fold_left (eval_step g p) mbs (labels, predictions, st) =
  (labels ++ map (batch_labels g) mbs,
   predictions ++ map (λ mb, map argmax (batch_pred st mb)) mbs,
   emits (eval_events p mbs) st).
Proof.
  revert labels predictions st. induction mbs as [|mb mbs IH]; intros labels predictions st Ht.
  - simpl. by rewrite !app_nil_r, emits_nil.
  - simpl. rewrite IH by done. rewrite <- !app_assoc. simpl. f_equal.
    unfold emits, emit, eval_events. simpl. rewrite Ht. by rewrite <- !app_assoc.
Qed.

Lemma hits_batches (st : state) (mbs : list minibatch) :
  hits (concat (map (batch_labels g) mbs))
       (concat (map (λ mb, map argmax (batch_pred st mb)) mbs))
  = length (flat_map (right_seeds g (training st) (model st)) mbs).
Proof.
  induction mbs as [|mb mbs IH]; [done|]. simpl.
  rewrite hits_app, length_app, IH.
  - f_equal. unfold batch_labels, batch_pred, right_seeds, scores.
    by rewrite map_map, hits_map.
  - unfold batch_labels, batch_pred. by rewrite !length_map.
Qed.

Lemma length_labels (mbs : list minibatch) :
  length (concat (map (batch_labels g) mbs)) = length (flat_map seeds mbs).
Proof.
  induction mbs as [|mb mbs IH]; [done|]. simpl.
  rewrite !length_app, IH. unfold batch_labels. by rewrite length_map.
Qed.

(** Evaluation over a pipeline: nothing but the forward passes, in
    evaluation mode and without gradients, and the overall accuracy. *)
Lemma evaluate_spec p (dataloader : Rng → list minibatch * Rng) (st : state) mbs r :
  training st = false →
  dataloader (rng st) = (mbs, r) →
  evaluate g p dataloader st =
    match mbs with
    | [] => inl ValueError_concatenate
    | _ => inr (overall_accuracy g (model st) mbs, emits (eval_events p mbs) (set_rng r st))
    end.
Proof.
  intros Ht Hd. unfold evaluate. rewrite Hd, eval_fold by done. simpl.
  destruct mbs as [|mb mbs]; [done|].
  unfold np_concatenate. simpl map. cbn [bind].
  do 2 f_equal. unfold accuracy_score, overall_accuracy.
  change (batch_labels g mb :: map (batch_labels g) mbs) with (map (batch_labels g) (mb :: mbs)).
  change (?a :: map ?f mbs) with (map f (mb :: mbs)).
  rewrite (hits_batches (set_rng r st)), length_labels. simpl training. by rewrite Ht.
Qed.
End LoopFacts.

(** ** One epoch *)

Section EpochFacts.
Context `{Torch}.
Variable g : Graph.
Variable args : Args.
Variable proc_id : nat.
Variables train_dataloader val_dataloader test_dataloader : Rng → list minibatch * Rng.

Lemma length_models_along rate (mbs : list minibatch) m :
  length (models_along rate mbs m) = length mbs.
Proof. revert m. induction mbs as [|mb mbs IH]; intros m; simpl; [done | by rewrite IH]. Qed.

Lemma length_train_accs (st : state) mbs : length (train_accs g st mbs) = length mbs.
Proof. unfold train_accs. rewrite length_zip_with, length_models_along. lia. Qed.

Lemma length_train_mems epoch (mbs : list minibatch) : length (train_mems epoch mbs) = length mbs.
Proof.
  unfold train_mems. rewrite length_map. generalize 0.
  induction mbs as [|mb mbs IH]; intros k; simpl; [done | by rewrite IH].
Qed.

(** Lines 106-133 in one equation. *)
Lemma train_epoch_spec epoch (st : state) mbs r :
  train_dataloader (rng st) = (mbs, r) →
  train_epoch g train_dataloader epoch st =
    match mbs with
    | [] => inl ZeroDivisionError_division
    | _ =>
        inr (py_sum (train_losses g st mbs),
             (py_sum (train_accs g st mbs) / inject_Z (Z.of_nat (length mbs)))%Q,
             (py_sum (train_mems epoch mbs) / inject_Z (Z.of_nat (length mbs)))%Q,
             after_training r mbs st)
    end.
Proof.
  intros Hd. unfold train_epoch. simpl. rewrite Hd, train_fold by reflexivity.
  destruct mbs as [|mb mbs]; [reflexivity|].
  cbn [accs gpu_mem_alloc epoch_loss app].
  fold (train_accs g (set_rng r (set_training true st)) (mb :: mbs)).
  fold (train_mems epoch (mb :: mbs)).
  unfold py_div_len.
  rewrite length_train_accs, length_train_mems. simpl length. cbn [bind].
  reflexivity.
Qed.

Lemma update_best_cases val_acc (st : state) :
  update_best args val_acc st =
    if Qltb (best_accuracy st) val_acc then
      if decide (model_save args ≠ 0%Z) then
        emit (Save (modelpath args))
          (set_files (<[modelpath args := model st]> (files st)) (set_best_accuracy val_acc st))
      else set_best_accuracy val_acc st
    else st.
Proof. unfold update_best, torch_save. by repeat case_match. Qed.

Lemma update_best_out val_acc (st : state) :
  out (update_best args val_acc st) = out st ++ save_events args val_acc st.
Proof.
  rewrite update_best_cases. unfold save_events.
  destruct (Qltb _ _); simpl; [|by rewrite app_nil_r].
  rewrite bool_decide_decide. destruct (decide _); simpl; [done|].
  by rewrite app_nil_r.
Qed.

Lemma update_best_other val_acc (st : state) :
  model (update_best args val_acc st) = model st ∧
  training (update_best args val_acc st) = training st ∧
  rng (update_best args val_acc st) = rng st ∧
  sched (update_best args val_acc st) = sched st.
Proof. rewrite update_best_cases. by repeat case_match. Qed.

Lemma update_best_le val_acc (st : state) :
  (best_accuracy st <= best_accuracy (update_best args val_acc st))%Q.
Proof.
  rewrite update_best_cases. destruct (Qltb _ _) eqn:E.
  - apply Qltb_lt in E. case_decide; simpl; by apply Qlt_le_weak.
  - apply Qle_refl.
Qed.

Lemma py_mod_cases (a b : Z) :
  py_mod a b = if decide (b = 0%Z) then inl ZeroDivisionError_modulo else inr (a `mod` b)%Z.
Proof.
  unfold py_mod. destruct (Z.eqb_spec b 0); by case_decide.
Qed.

(** Lines 136-163 in one equation, for a module in evaluation mode. *)
Lemma validate_spec epoch L A M (st : state) :
  training st = false →
  validate g args proc_id val_dataloader epoch L A M st =
    if decide (proc_id = 0) then
      if decide (log_every args = 0%Z) then inl ZeroDivisionError_modulo
      else if decide ((Z.of_nat epoch `mod` log_every args)%Z = 0%Z) then
        match (val_dataloader (rng st)).1 with
        | [] => inl ValueError_concatenate
        | vbs => inr (after_validation g args epoch L A M vbs (val_dataloader (rng st)).2 st)
        end
      else inr st
    else inr st.
Proof.
  intros Ht. unfold validate. case_decide; [|done].
  rewrite py_mod_cases. case_decide; [done|]. cbn [bind].
  case_decide; [|done].
  destruct (val_dataloader (rng st)) as [vbs r] eqn:Hd.
  rewrite (evaluate_spec g ValPipe val_dataloader st vbs r Ht Hd).
  by destruct vbs.
Qed.

(** Lines 104-165 in one equation. *)
Lemma epoch_body_spec epoch (st : state) mbs r :
  train_dataloader (rng st) = (mbs, r) →
  epoch_body g args proc_id train_dataloader val_dataloader epoch st =
    match mbs with
    | [] => inl ZeroDivisionError_division
    | _ =>
        let? st' :=
          validate g args proc_id val_dataloader epoch
            (py_sum (train_losses g st mbs))
            (py_sum (train_accs g st mbs) / inject_Z (Z.of_nat (length mbs)))%Q
            (py_sum (train_mems epoch mbs) / inject_Z (Z.of_nat (length mbs)))%Q
            (set_training false (after_training r mbs st)) in
        inr (set_sched (StepLR_step (sched st')) st')
    end.
Proof.
  intros Hd. unfold epoch_body. rewrite (train_epoch_spec epoch st mbs r Hd).
  by destruct mbs.
Qed.
End EpochFacts.

(** ** The loop over epochs *)

Section LoopOverEpochs.
Context `{Torch}.
Variable g : Graph.
Variable args : Args.
Variable proc_id : nat.
Variables train_dataloader val_dataloader test_dataloader : Rng → list minibatch * Rng.

Lemma training_loop_app es1 es2 (st : state) :
  training_loop g args proc_id train_dataloader val_dataloader (es1 ++ es2) st =
  let? st1 := training_loop g args proc_id train_dataloader val_dataloader es1 st in
  training_loop g args proc_id train_dataloader val_dataloader es2 st1.
Proof.
  revert st. induction es1 as [|e es1 IH]; intros st; simpl; [done|].
  destruct (epoch_body _ _ _ _ _ e st); simpl; [done | apply IH].
Qed.

(** An epoch of a worker that is not the leader. *)
Lemma epoch_body_nonleader epoch (st : state) mbs r :
  proc_id ≠ 0 →
  train_dataloader (rng st) = (mbs, r) →
  epoch_body g args proc_id train_dataloader val_dataloader epoch st =
    match mbs with
    | [] => inl ZeroDivisionError_division
    | _ => inr (set_sched (StepLR_step (sched st)) (set_training false (after_training r mbs st)))
    end.
Proof.
  intros Hp Hd. rewrite (epoch_body_spec g args proc_id _ _ epoch st mbs r Hd).
  destruct mbs; [done|]. rewrite validate_spec by done.
  by rewrite decide_False.
Qed.

(** The worker after an evaluation epoch of the leader, field by field. *)
Lemma after_validation_spec epoch L A M vbs r (st : state) :
  let val_acc := overall_accuracy g (model st) vbs in
  let st' := after_validation g args epoch L A M vbs r st in
  out st' = out st ++ eval_events ValPipe vbs ++ save_events args val_acc st
              ++ [Print (EpochLine epoch L A val_acc (epoch_seconds epoch) M)] ∧
  sched st' = sched st ∧ model st' = model st ∧ training st' = training st ∧ rng st' = r ∧
  best_accuracy st' =
    (if Qltb (best_accuracy st) val_acc then val_acc else best_accuracy st) ∧
  files st' =
    (if Qltb (best_accuracy st) val_acc && bool_decide (model_save args ≠ 0%Z)
     then <[modelpath args := model st]> (files st) else files st).
Proof.
  intros val_acc st'. subst st'. unfold after_validation. fold val_acc.
  rewrite update_best_cases. unfold save_events. simpl.
  rewrite bool_decide_decide.
  destruct (Qltb (best_accuracy st) val_acc); [destruct (decide _)|]; simpl;
    rewrite <- ?app_assoc; simpl; by rewrite ?app_nil_r.
Qed.

Lemma train_events_epoch (mbs : list minibatch) :
  Forall (λ e, is_epoch_event e = true) (train_events mbs).
Proof. induction mbs as [|x l IH]; simpl; repeat constructor; done. Qed.

Lemma eval_events_epoch (vbs : list minibatch) :
  Forall (λ e, is_epoch_event e = true) (eval_events ValPipe vbs).
Proof. induction vbs as [|x l IH]; simpl; repeat constructor; done. Qed.

(** What an epoch that did not raise did to the worker. *)
Lemma epoch_body_inr epoch (st st' : state) :
  epoch_body g args proc_id train_dataloader val_dataloader epoch st = inr st' →
  ∃ st1 es,
    st' = set_sched (StepLR_step (sched st1)) st1 ∧
    sched st1 = sched st ∧
    out st1 = out st ++ es ∧
    Forall (λ e, is_epoch_event e = true) es ∧
    (best_accuracy st <= best_accuracy st1)%Q ∧
    (proc_id ≠ 0 → best_accuracy st1 = best_accuracy st ∧ files st1 = files st).
Proof.
  destruct (train_dataloader (rng st)) as [mbs r] eqn:Hd.
  rewrite (epoch_body_spec g args proc_id _ _ epoch st mbs r Hd).
  destruct mbs as [|mb mbs]; [done|]. set (mbs' := mb :: mbs).
  rewrite validate_spec by done.
  pose proof (train_events_epoch mbs') as Htr.
  repeat case_decide; try done; cbn [bind].
  - destruct (val_dataloader _) as [[|vb vbs] r']; [done|]. cbn [fst snd].
    intros [= <-].
    match goal with |- ∃ st1 _, set_sched _ ?X = _ ∧ _ => exists X end.
    match goal with |- context [after_validation g args epoch ?L ?A ?M ?v ?r ?s] =>
      destruct (after_validation_spec epoch L A M v r s) as (Ho & Hs & _ & _ & _ & Hb & _)
    end.
    match type of Ho with _ = _ ++ ?E => exists (train_events mbs' ++ E) end.
    split; [reflexivity|].
    rewrite Ho, Hs, Hb. split; [done|]. split.
    + simpl. rewrite <- !app_assoc. reflexivity.
    + split; [|split; [|lia]].
      * apply Forall_app; split; [done|].
        apply Forall_app; split; [apply eval_events_epoch|].
        apply Forall_app; split; [|by repeat constructor].
        unfold save_events. destruct (_ && _); by repeat constructor.
      * simpl. destruct (Qltb _ _) eqn:E; [|apply Qle_refl].
        apply Qlt_le_weak. by apply Qltb_lt.
  - intros [= <-].
    match goal with |- ∃ st1 _, set_sched _ ?X = _ ∧ _ => exists X end.
    eexists. split; [reflexivity|]. simpl.
    repeat split; try done. apply Qle_refl.
  - intros [= <-].
    match goal with |- ∃ st1 _, set_sched _ ?X = _ ∧ _ => exists X end.
    eexists. split; [reflexivity|]. simpl.
    repeat split; try done. apply Qle_refl.
Qed.

Lemma training_loop_inr es (st st' : state) :
  training_loop g args proc_id train_dataloader val_dataloader es st = inr st' →
  ∃ evs,
    out st' = out st ++ evs ∧
    Forall (λ e, is_epoch_event e = true) evs ∧
    sched st' = Nat.iter (length es) StepLR_step (sched st) ∧
    (best_accuracy st <= best_accuracy st')%Q ∧
    (proc_id ≠ 0 → best_accuracy st' = best_accuracy st ∧ files st' = files st).
Proof.
  revert st. induction es as [|e es IH]; intros st; simpl.
  - intros [= <-]. exists []. rewrite app_nil_r. repeat split; try done. apply Qle_refl.
  - destruct (epoch_body _ _ _ _ _ e st) as [|st1] eqn:He; [done|]. simpl.
    intros Hl. apply epoch_body_inr in He as (st0 & es0 & -> & Hs & Ho & Hf & Hb & Hn).
    apply IH in Hl as (evs & Ho' & Hf' & Hs' & Hb' & Hn'). simpl in *.
    exists (es0 ++ evs). rewrite Ho', Ho, <- app_assoc. split; [done|].
    split; [by apply Forall_app|]. split.
    + rewrite Hs'. rewrite Hs. clear. induction (length es); simpl; [done|]. by rewrite IHn.
    + split; [by eapply Qle_trans|].
      intros Hp. destruct (Hn Hp) as [<- <-]. by apply Hn'.
Qed.
End LoopOverEpochs.

(** ** The training statistics of an epoch *)

Section TrainingStatistics.
Context `{Torch}.
Variable g : Graph.
Variable train_dataloader : Rng → list minibatch * Rng.

(** C6: in an epoch whose train pipeline yields the minibatches [mbs]
    (at least one), every minibatch contributes one accuracy, the fraction
    of its seeds whose argmax prediction is their label times 100, and one
    peak-memory sample; the reported epoch accuracy is the arithmetic mean of
    these accuracies, the reported memory the arithmetic mean of the samples,
    and the epoch loss the sum of the per-batch losses. *)
Theorem C6_epoch_statistics epoch (st : state) mbs r :
  train_dataloader (rng st) = (mbs, r) →
  mbs ≠ [] →
  ∃ L A M,
    train_epoch g train_dataloader epoch st = inr (L, A, M, after_training r mbs st) ∧
    (L == total (train_losses g st mbs))%Q ∧
    (A == mean (train_accs g st mbs))%Q ∧
    (M == mean (train_mems epoch mbs))%Q ∧
    length (train_accs g st mbs) = length mbs ∧
    length (train_mems epoch mbs) = length mbs ∧
    Forall2 (λ a mmb, (a == inject_Z (Z.of_nat (length (right_seeds g true mmb.1 mmb.2)))
                            / inject_Z (Z.of_nat (length (seeds mmb.2))) * 100)%Q)
      (train_accs g st mbs) (zip (models_along (lr (sched st)) mbs (model st)) mbs).
Proof.
  intros Hd Hne. rewrite (train_epoch_spec g train_dataloader epoch st mbs r Hd).
  destruct mbs as [|mb mbs]; [done|]. set (mbs' := mb :: mbs) in *.
  eexists _, _, _. split; [reflexivity|].
  split; [apply py_sum_total|].
  unfold mean. rewrite length_train_accs, length_train_mems, !py_sum_total.
  repeat split; try reflexivity.
  unfold train_accs. generalize (models_along (lr (sched st)) mbs' (model st)). generalize mbs'.
  intros l. induction l as [|x l IH]; intros [|m ms]; simpl; constructor; [reflexivity|apply IH].
Qed.
End TrainingStatistics.

Lemma C6_epoch_statistics_witness :
  let st := init Toy.args 0 ∅ in
  let dl := dl_iter (loader 0 Toy.devices Toy.args Toy.sampler (train_nid Toy.g) true) in
  ∃ L A M,
    train_epoch Toy.g dl 0 st = inr (L, A, M, after_training (dl (rng st)).2 (dl (rng st)).1 st) ∧
    (L == 2)%Q ∧ (A == 20)%Q ∧ (M == 0)%Q.
Proof.
  intros st dl.
  destruct (C6_epoch_statistics Toy.g dl 0 st (dl (rng st)).1 (dl (rng st)).2)
    as (L & A & M & He & HL & HA & HM & _); [reflexivity | discriminate |].
  exists L, A, M. split; [exact He|].
  rewrite HL, HA, HM. repeat split; vm_compute; reflexivity.
Defined.

(** ** Evaluation, logging and the checkpoint *)

Section Evaluation.
Context `{Torch}.
Variable g : Graph.
Variable args : Args.
Variable proc_id : nat.
Variables train_dataloader val_dataloader test_dataloader : Rng → list minibatch * Rng.


(** C5: the epoch's validation runs on the leader only and only when
    [epoch % log_every == 0].  On those epochs the validation pipeline is
    drained to its end in evaluation mode and without gradients, one accuracy
    is computed over all its seeds in traversal order, and one line is
    logged with the epoch index, the loss sum, the train accuracy, the
    validation accuracy, the duration and the memory of the epoch.  On the
    other epochs and on the other workers the epoch adds nothing to the
    training events: no evaluation, no line. *)
Theorem C5_validation_and_log epoch (st : state) mbs r L A M st1 :
  train_dataloader (rng st) = (mbs, r) →
  train_epoch g train_dataloader epoch st = inr (L, A, M, st1) →
  (proc_id ≠ 0 ∨ (log_every args ≠ 0 ∧ Z.of_nat epoch `mod` log_every args ≠ 0)%Z →
   ∃ st',
     epoch_body g args proc_id train_dataloader val_dataloader epoch st = inr st' ∧
     out st' = out st ++ train_events mbs ∧
     count is_evaluation (out st') = count is_evaluation (out st) ∧
     count is_Print (out st') = count is_Print (out st)) ∧
  (proc_id = 0 → (log_every args ≠ 0 ∧ Z.of_nat epoch `mod` log_every args = 0)%Z →
   ∀ vbs r', val_dataloader r = (vbs, r') → vbs ≠ [] →
   let val_acc := overall_accuracy g (model st1) vbs in
   ∃ st',
     epoch_body g args proc_id train_dataloader val_dataloader epoch st = inr st' ∧
     out st' = out st ++ train_events mbs ++ eval_events ValPipe vbs
                 ++ save_events args val_acc st1
                 ++ [Print (EpochLine epoch L A val_acc (epoch_seconds epoch) M)] ∧
     count is_evaluation (out st') = count is_evaluation (out st) + length vbs ∧
     count is_Print (out st') = count is_Print (out st) + 1).
Proof.
  intros Hd He.
  rewrite (epoch_body_spec g args proc_id _ val_dataloader epoch st mbs r Hd).
  rewrite (train_epoch_spec g train_dataloader epoch st mbs r Hd) in He.
  destruct mbs as [|mb mbs]; [done|]. set (mbs' := mb :: mbs) in *.
  injection He as <- <- <- <-.
  rewrite validate_spec by done.
  assert (Hce : count is_evaluation (train_events mbs') = 0).
  { apply count_none. unfold train_events. clear. induction mbs'; simpl; repeat constructor; auto. }
  assert (Hcp : count is_Print (train_events mbs') = 0).
  { apply count_none. unfold train_events. clear. induction mbs'; simpl; repeat constructor; auto. }
  split.
  - intros Hno.
    repeat case_decide; try (exfalso; destruct Hno as [?|[? ?]]; done);
      cbn [bind]; (eexists; split; [reflexivity|]);
      change (out (set_sched ?s (set_training false (after_training r mbs' st))))
        with (out st ++ train_events mbs');
      rewrite !count_app, Hce, Hcp; repeat split; lia.
  - intros Hp [Hl Hm] vbs r' Hv Hne val_acc.
    rewrite (decide_True _ _ Hp), (decide_False _ _ Hl), (decide_True _ _ Hm).
    change (rng (set_training false (after_training r mbs' st))) with r.
    rewrite Hv. cbn [fst snd]. destruct vbs as [|vb vbs]; [done|]. set (vbs' := vb :: vbs) in *.
    cbn [bind]. eexists. split; [reflexivity|].
    match goal with |- context [after_validation g args epoch ?L ?A ?M ?v ?r ?s] =>
      destruct (after_validation_spec g args epoch L A M v r s) as (Ho & _)
    end.
    change (out (set_sched ?s ?x)) with (out x). rewrite Ho.
    change (out (set_training false (after_training r mbs' st))) with (out st ++ train_events mbs').
    rewrite <- !app_assoc. split; [reflexivity|].
    rewrite !count_app, Hce, Hcp.
    assert (count is_evaluation (eval_events ValPipe vbs') = length vbs'
            ∧ count is_Print (eval_events ValPipe vbs') = 0) as [-> ->].
    { clear. unfold eval_events. induction vbs' as [|x l [IH1 IH2]]; [done|].
      simpl map. rewrite !count_cons, IH1, IH2. simpl. done. }
    assert (count is_evaluation (save_events args (overall_accuracy g (model_after (lr (sched st)) mbs' (model st)) vbs')
              (set_training false (after_training r mbs' st))) = 0
            ∧ count is_Print (save_events args (overall_accuracy g (model_after (lr (sched st)) mbs' (model st)) vbs')
              (set_training false (after_training r mbs' st))) = 0) as [Hs1 Hs2].
    { unfold save_events. by destruct (_ && _). }
    change (model (set_training false (after_training r mbs' st)))
      with (model_after (lr (sched st)) mbs' (model st)).
    rewrite Hs1, Hs2.
    split; unfold count; simpl; lia.
Qed.
End Evaluation.

(** ** The best-accuracy tracker and the checkpoint *)

Section Tracker.
Context `{Torch}.
Variable g : Graph.
Variable args : Args.
Variable proc_id : nat.
Variables train_dataloader val_dataloader test_dataloader : Rng → list minibatch * Rng.

Lemma update_best_spec val_acc (st : state) :
  let won := Qltb (best_accuracy st) val_acc in
  let saved := won && bool_decide (model_save args ≠ 0%Z) in
  best_accuracy (update_best args val_acc st) = (if won then val_acc else best_accuracy st) ∧
  files (update_best args val_acc st) =
    (if saved then <[modelpath args := model st]> (files st) else files st) ∧
  count is_Save (out (update_best args val_acc st)) =
    count is_Save (out st) + (if saved then 1 else 0).
Proof.
  intros won saved. subst won saved. rewrite update_best_out, count_app.
  rewrite update_best_cases. unfold save_events. rewrite bool_decide_decide.
  destruct (Qltb _ _); [destruct (decide _)|]; done.
Qed.

Lemma write_steps_cons step v vals (st : state) :
  write_steps args step (v :: vals) st =
  (if Qltb (best_accuracy st) v && bool_decide (model_save args ≠ 0%Z) then [step] else [])
  ++ write_steps args (S step) vals (update_best args v st).
Proof.
  simpl. destruct (update_best_spec v st) as (_ & _ & ->).
  destruct (_ && _).
  - by rewrite decide_True by lia.
  - by rewrite decide_False by lia.
Qed.

(** C1, amended: on an evaluation epoch of the leader the tracker takes
    the validation accuracy exactly when that accuracy is strictly above
    it, and is otherwise left alone; when it does and checkpointing is
    enabled, the module is written to the configured path, replacing what
    was there, and nothing is written in any other case.  Fed the
    accuracies 40, 55, 50, 70 from a tracker at zero with checkpointing
    enabled, the policy writes three times, at steps 1, 2 and 4. *)
Theorem C1_checkpoint_on_strict_improvement :
  (∀ epoch L A M (st : state) vbs r,
     training st = false → proc_id = 0 →
     (log_every args ≠ 0 ∧ Z.of_nat epoch `mod` log_every args = 0)%Z →
     val_dataloader (rng st) = (vbs, r) → vbs ≠ [] →
     let val_acc := overall_accuracy g (model st) vbs in
     let won := Qltb (best_accuracy st) val_acc in
     let saved := won && bool_decide (model_save args ≠ 0%Z) in
     ∃ st',
       validate g args proc_id val_dataloader epoch L A M st = inr st' ∧
       best_accuracy st' = (if won then val_acc else best_accuracy st) ∧
       ((best_accuracy st < best_accuracy st')%Q ↔ won = true) ∧
       files st' = (if saved then <[modelpath args := model st]> (files st) else files st) ∧
       (saved = true → files st' !! modelpath args = Some (model st)) ∧
       count is_Save (out st') = count is_Save (out st) + (if saved then 1 else 0)) ∧
  (∀ st : state,
     best_accuracy st = 0%Q → model_save args ≠ 0%Z →
     write_steps args 1 [40; 55; 50; 70]%Q st = [1; 2; 4] ∧
     tracker_after args [40; 55; 50; 70]%Q st = [40; 55; 55; 70]%Q).
Proof.
  split.
  - intros epoch L A M st vbs r Ht Hp [Hl Hm] Hv Hne val_acc won saved.
    rewrite validate_spec by done.
    rewrite (decide_True _ _ Hp), (decide_False _ _ Hl), (decide_True _ _ Hm), Hv.
    cbn [fst snd]. destruct vbs as [|vb vbs]; [done|]. set (vbs' := vb :: vbs) in *.
    eexists. split; [reflexivity|].
    destruct (after_validation_spec g args epoch L A M vbs' r st)
      as (Ho & _ & _ & _ & _ & Hb & Hf).
    fold val_acc in Ho, Hb, Hf. fold won in Hb, Hf. fold saved in Hf.
    rewrite Ho, Hb, Hf. split; [done|]. split; [|split; [done|split]].
    + subst won. destruct (Qltb _ _) eqn:E.
      * apply Qltb_lt in E. done.
      * split; [|done]. intros Hlt. by apply Qlt_irrefl in Hlt.
    + intros ->. apply lookup_insert_eq.
    + rewrite !count_app. unfold save_events. fold won saved.
      assert (count is_Save (eval_events ValPipe vbs') = 0) as ->.
      { apply count_none. unfold eval_events. clear. induction vbs'; by constructor. }
      destruct saved; unfold count; simpl; lia.
  - intros st Hb Hs.
    assert (Hd : bool_decide (model_save args ≠ 0%Z) = true) by by apply bool_decide_eq_true.
    split.
    + rewrite !write_steps_cons.
      destruct (update_best_spec 40 st) as (B1 & _).
      destruct (update_best_spec 55 (update_best args 40 st)) as (B2 & _).
      destruct (update_best_spec 50 (update_best args 55 (update_best args 40 st))) as (B3 & _).
      rewrite Hb in B1. simpl in B1. rewrite B1 in B2. simpl in B2. rewrite B2 in B3. simpl in B3.
      rewrite Hb, B1, B2, B3, Hd. reflexivity.
    + simpl.
      destruct (update_best_spec 40 st) as (B1 & _).
      destruct (update_best_spec 55 (update_best args 40 st)) as (B2 & _).
      destruct (update_best_spec 50 (update_best args 55 (update_best args 40 st))) as (B3 & _).
      destruct (update_best_spec 70
        (update_best args 50 (update_best args 55 (update_best args 40 st)))) as (B4 & _).
      rewrite Hb in B1. simpl in B1. rewrite B1 in B2. simpl in B2. rewrite B2 in B3. simpl in B3.
      rewrite B3 in B4. simpl in B4.
      by rewrite B1, B2, B3, B4.
Qed.

(** C2: the tracker starts at zero; over the epochs it never decreases, so
    that after a later epoch it is at least what it was after an earlier
    one; a worker other than the leader neither changes it nor depends on
    it; the final test leaves it alone. *)
Theorem C2_tracker_monotone :
  (∀ fs, best_accuracy (init args proc_id fs) = 0%Q) ∧
  (∀ e1 e2 (st s1 s2 : state),
     e1 ≤ e2 →
     training_loop g args proc_id train_dataloader val_dataloader (seq 0 e1) st = inr s1 →
     training_loop g args proc_id train_dataloader val_dataloader (seq 0 e2) st = inr s2 →
     (best_accuracy s1 <= best_accuracy s2)%Q) ∧
  (proc_id ≠ 0 →
   ∀ es (st st' : state),
     training_loop g args proc_id train_dataloader val_dataloader es st = inr st' →
     best_accuracy st' = best_accuracy st ∧
     ∀ b, training_loop g args proc_id train_dataloader val_dataloader es
            (set_best_accuracy b st) = inr (set_best_accuracy b st')) ∧
  (∀ st st' : state,
     final_test g proc_id test_dataloader st = inr st' →
     best_accuracy st' = best_accuracy st).
Proof.
  split; [done|]. split; [|split].
  - intros e1 e2 st s1 s2 Hle H1 H2.
    replace e2 with (e1 + (e2 - e1)) in H2 by lia.
    rewrite seq_app, training_loop_app, H1 in H2. cbn [bind] in H2.
    apply training_loop_inr in H2 as (_ & _ & _ & _ & Hb & _). exact Hb.
  - intros Hp es. induction es as [|e es IH]; intros st st'; simpl.
    + intros [= <-]. done.
    + destruct (train_dataloader (rng st)) as [mbs r] eqn:Hd.
      rewrite (epoch_body_nonleader g args proc_id _ _ e st mbs r Hp Hd).
      intros Hl. split.
      * destruct mbs; [done|]. cbn [bind] in Hl. by apply IH in Hl as [-> _].
      * intros b.
        rewrite (epoch_body_nonleader g args proc_id _ _ e (set_best_accuracy b st) mbs r Hp Hd).
        destruct mbs; [done|]. cbn [bind] in *. apply IH in Hl as [_ Hb].
        apply (Hb b).
  - intros st st'. unfold final_test. case_decide; [|by intros [= <-]].
    destruct (test_dataloader (rng (set_training false st))) as [tbs r] eqn:Hd.
    rewrite (evaluate_spec g TestPipe test_dataloader (set_training false st) tbs r eq_refl Hd).
    destruct tbs; [done|]. cbn [bind]. by intros [= <-].
Qed.
End Tracker.

(** ** The final test *)

Section FinalTest.
Context `{Torch}.
Variable g : Graph.
Variable args : Args.
Variable proc_id : nat.
Variables train_dataloader val_dataloader test_dataloader : Rng → list minibatch * Rng.

Lemma final_test_spec (st : state) :
  final_test g proc_id test_dataloader st =
    if decide (proc_id = 0) then
      match (test_dataloader (rng st)).1 with
      | [] => inl ValueError_concatenate
      | tbs =>
          inr (emits (eval_events TestPipe tbs
                      ++ [Print (TestAcc (overall_accuracy g (model st) tbs));
                          Print (TotalTime total_seconds)])
                 (set_rng (test_dataloader (rng st)).2 (set_training false st)))
      end
    else inr (set_training false st).
Proof.
  unfold final_test. case_decide; [|done].
  destruct (test_dataloader (rng st)) as [tbs r] eqn:Hd.
  rewrite (evaluate_spec g TestPipe test_dataloader (set_training false st) tbs r eq_refl Hd).
  destruct tbs as [|tb tbs]; [done|]. cbn [bind fst snd].
  by rewrite !emit_emits, <- app_assoc.
Qed.

Lemma epoch_event_not_test e :
  is_epoch_event e = true →
  is_TestAcc e = false ∧ is_TotalTime e = false ∧ is_test_minibatch e = false.
Proof. destruct e as [[] ? ? ?| | |[]]; done. Qed.

Lemma count_eval_events_test (tbs : list minibatch) :
  count is_TestAcc (eval_events TestPipe tbs) = 0 ∧
  count is_TotalTime (eval_events TestPipe tbs) = 0 ∧
  count is_Save (eval_events TestPipe tbs) = 0 ∧
  count is_test_minibatch (eval_events TestPipe tbs) = length tbs.
Proof.
  unfold eval_events. induction tbs as [|x l (IH1 & IH2 & IH3 & IH4)]; [done|].
  simpl map. rewrite !count_cons, IH1, IH2, IH3, IH4. done.
Qed.

(** C9: on the leader the final test drains the test pipeline in evaluation
    mode and without gradients, scores all its seeds together like the
    validation does, and prints the test accuracy and then the total
    elapsed time of the run; it writes no file and does not touch the
    tracker.  Other workers do nothing there.  In a run that ends, it comes
    after the last epoch and happens once: no test minibatch and no test
    line before it, and one test line and one total-time line on the leader
    (none elsewhere) at the end. *)
Theorem C9_final_test_evaluation :
  (proc_id = 0 →
   ∀ (st : state) tbs r, test_dataloader (rng st) = (tbs, r) → tbs ≠ [] →
     ∃ st',
       final_test g proc_id test_dataloader st = inr st' ∧
       out st' = out st ++ eval_events TestPipe tbs
                   ++ [Print (TestAcc (overall_accuracy g (model st) tbs));
                       Print (TotalTime total_seconds)] ∧
       best_accuracy st' = best_accuracy st ∧
       files st' = files st ∧
       count is_Save (out st') = count is_Save (out st)) ∧
  (proc_id ≠ 0 →
   ∀ st : state, final_test g proc_id test_dataloader st = inr (set_training false st)) ∧
  (∀ fs (st_end : state),
     worker g args proc_id train_dataloader val_dataloader test_dataloader fs = inr st_end →
     ∃ st_loop,
       training_loop g args proc_id train_dataloader val_dataloader
         (epoch_range args) (init args proc_id fs) = inr st_loop ∧
       final_test g proc_id test_dataloader st_loop = inr st_end ∧
       count is_test_minibatch (out st_loop) = 0 ∧
       count is_TestAcc (out st_loop) = 0 ∧
       count is_TotalTime (out st_loop) = 0 ∧
       count is_test_minibatch (out st_end) =
         (if decide (proc_id = 0) then length (test_dataloader (rng st_loop)).1 else 0) ∧
       count is_TestAcc (out st_end) = (if decide (proc_id = 0) then 1 else 0) ∧
       count is_TotalTime (out st_end) = (if decide (proc_id = 0) then 1 else 0)).
Proof.
  split; [|split].
  - intros Hp st tbs r Hd Hne. rewrite final_test_spec, (decide_True _ _ Hp), Hd.
    cbn [fst snd]. destruct tbs as [|tb tbs]; [done|]. set (tbs' := tb :: tbs).
    eexists. split; [reflexivity|]. cbn [out emits best_accuracy files set_rng set_training].
    repeat split; try done.
    rewrite !count_app. destruct (count_eval_events_test tbs') as (_ & _ & -> & _).
    unfold count. simpl. lia.
  - intros Hp st. by rewrite final_test_spec, (decide_False _ _ Hp).
  - intros fs st_end. unfold worker.
    destruct (training_loop _ _ _ _ _ _ _) as [|st_loop] eqn:Hl; [done|]. cbn [bind].
    intros Hf. exists st_loop. split; [done|]. split; [done|].
    apply training_loop_inr in Hl as (evs & Ho & Hev & _).
    assert (H0 : count is_test_minibatch (out st_loop) = 0
                 ∧ count is_TestAcc (out st_loop) = 0 ∧ count is_TotalTime (out st_loop) = 0).
    { rewrite Ho, !count_app.
      rewrite (count_none is_test_minibatch evs), (count_none is_TestAcc evs),
        (count_none is_TotalTime evs);
        try (eapply Forall_impl; [exact Hev|]; intros e He; by apply epoch_event_not_test in He as (? & ? & ?)).
      unfold init. simpl. by case_decide. }
    destruct H0 as (N1 & N2 & N3). rewrite N1, N2, N3. repeat split.
    all: revert Hf; rewrite final_test_spec; case_decide;
      [destruct (test_dataloader (rng st_loop)) as [[|tb tbs] r]; [done|] |];
      intros <-%(inj inr); cbn [out emits set_rng set_training fst snd]; [|done].
    all: rewrite !count_app; set (tbs' := tb :: tbs);
      destruct (count_eval_events_test tbs') as (E1 & E2 & _ & E4).
    + rewrite N1, E4. unfold count. simpl. lia.
    + rewrite N2, E1. unfold count. simpl. lia.
    + rewrite N3, E2. unfold count. simpl. lia.
Qed.
End FinalTest.

(** ** The schedule *)

Lemma div_succ k s :
  0 < s → S k / s = k / s + (if decide (S k `mod` s = 0) then 1 else 0).
Proof.
  intros Hs.
  pose proof (Nat.div_mod_eq k s) as Hk.
  pose proof (Nat.mod_upper_bound k s ltac:(lia)) as Hb.
  destruct (decide (k `mod` s = s - 1)) as [E|E].
  - assert (S k = s * (k / s + 1) + 0) as HS by nia.
    assert (S k `mod` s = 0) as ->.
    { symmetry. apply (Nat.mod_unique (S k) s (k / s + 1) 0); lia. }
    rewrite decide_True by done.
    symmetry. apply (Nat.div_unique (S k) s (k / s + 1) 0); lia.
  - assert (S k = s * (k / s) + S (k `mod` s)) as HS by nia.
    assert (S k `mod` s = S (k `mod` s)) as ->.
    { symmetry. apply (Nat.mod_unique (S k) s (k / s) (S (k `mod` s))); lia. }
    rewrite decide_False by done.
    rewrite Nat.add_0_r. symmetry. apply (Nat.div_unique (S k) s (k / s) (S (k `mod` s))); lia.
Qed.

Lemma Qpower_succ_nat (a : Q) (n : nat) : (a ^ Z.of_nat (n + 1) == a ^ Z.of_nat n * a)%Q.
Proof.
  rewrite Nat2Z.inj_add. rewrite Qpower_plus' by lia. simpl (a ^ Z.of_nat 1)%Q. reflexivity.
Qed.

(** The schedule after [k] calls of [step], from its initial state. *)
Lemma StepLR_iter k r0 s γ :
  let sc := Nat.iter k StepLR_step (StepLR_init r0 s γ) in
  last_epoch sc = k ∧ step_size sc = s ∧ gamma sc = γ ∧
  (0 < s → (lr sc == r0 * γ ^ Z.of_nat (k / s))%Q).
Proof.
  induction k as [|k (Hl & Hs & Hg & Hr)]; simpl.
  - repeat split. intros Hpos. rewrite Nat.Div0.div_0_l. simpl. ring.
  - repeat split; try done; [by rewrite Hl|].
    intros Hpos. rewrite Hl, Hs, Hg, (div_succ k s Hpos).
    destruct (decide _).
    + rewrite Qpower_succ_nat, (Hr Hpos). ring.
    + rewrite Nat.add_0_r. by apply Hr.
Qed.

(** ** The pipeline *)

Lemma nonzero_from_ge i mask x : x ∈ nonzero_from i mask → i ≤ x.
Proof.
  revert i. induction mask as [|[] mask IH]; intros i; simpl.
  - by intros ?%elem_of_nil.
  - intros [->|Hx%IH]%elem_of_cons; lia.
  - intros Hx%IH. lia.
Qed.



Section PipelineFacts.
Context `{Torch}.

Lemma chunk_offset_succ n N r :
  chunk_offset n N (S r) = chunk_offset n N r + chunk_size n N r.
Proof. unfold chunk_offset, chunk_size. case_decide; nia. Qed.

Lemma chunk_offset_all n N : 0 < N → chunk_offset n N N = n.
Proof.
  intros HN. unfold chunk_offset.
  pose proof (Nat.div_mod_eq n N). pose proof (Nat.mod_upper_bound n N ltac:(lia)). nia.
Qed.

Lemma chunk_offset_le n N r : r ≤ N → 0 < N → chunk_offset n N r ≤ n.
Proof.
  intros Hr HN. unfold chunk_offset.
  pose proof (Nat.div_mod_eq n N). pose proof (Nat.mod_upper_bound n N ltac:(lia)). nia.
Qed.

(** The shares of the first [k] workers, one after the other, are the first
    [chunk_offset k] seeds. *)
Lemma concat_partition_upto N k (nids : list node) :
  concat (map (λ r, ddp_partition N r nids) (seq 0 k))
  = take (chunk_offset (length nids) N k) nids.
Proof.
  induction k as [|k IH].
  - simpl. unfold chunk_offset. simpl. by rewrite take_0.
  - rewrite seq_S, map_app, concat_app, IH. simpl. rewrite app_nil_r.
    unfold ddp_partition. by rewrite take_take_drop, chunk_offset_succ.
Qed.

Lemma concat_partition N (nids : list node) :
  0 < N → concat (map (λ r, ddp_partition N r nids) (seq 0 N)) = nids.
Proof.
  intros HN. rewrite concat_partition_upto, chunk_offset_all by done. by rewrite take_ge.
Qed.

Lemma length_ddp_partition N r (nids : list node) :
  r < N → length (ddp_partition N r nids) = chunk_size (length nids) N r.
Proof.
  intros Hr. unfold ddp_partition. rewrite length_take, length_drop.
  pose proof (chunk_offset_le (length nids) N (S r) ltac:(lia) ltac:(lia)) as Hle.
  rewrite chunk_offset_succ in Hle. lia.
Qed.

Lemma batches_of_concat fuel bs (l : list node) :
  0 < bs → length l ≤ fuel → concat (batches_of fuel bs l) = l.
Proof.
  intros Hbs. revert l. induction fuel as [|fuel IH]; intros l Hl.
  - destruct l; [done | simpl in Hl; lia].
  - destruct l as [|x l]; [done|].
    change (batches_of (S fuel) bs (x :: l))
      with (take bs (x :: l) :: batches_of fuel bs (drop bs (x :: l))).
    simpl concat. rewrite IH; [apply take_drop|].
    rewrite length_drop. simpl in *. lia.
Qed.


(** [ceil(len / batch_size)] batches. *)
Lemma batches_of_length fuel bs (l : list node) :
  0 < bs → length l ≤ fuel → length (batches_of fuel bs l) = (length l + bs - 1) / bs.
Proof.
  intros Hbs. revert l. induction fuel as [|fuel IH]; intros l Hl.
  - destruct l; simpl in *; [|lia]. symmetry. apply Nat.div_small. lia.
  - destruct l as [|x l]; [simpl; symmetry; apply Nat.div_small; lia|].
    change (batches_of (S fuel) bs (x :: l))
      with (take bs (x :: l) :: batches_of fuel bs (drop bs (x :: l))).
    simpl length at 1. rewrite IH by (rewrite length_drop; simpl in *; lia).
    rewrite length_drop. set (n := length (x :: l)). assert (0 < n) by (subst n; simpl; lia).
    destruct (decide (n ≤ bs)) as [Hle|Hgt].
    + replace (n - bs) with 0 by lia. rewrite (Nat.div_small (0 + bs - 1)) by lia.
      apply (Nat.div_unique (n + bs - 1) bs 1 (n - 1)); lia.
    + replace (n + bs - 1) with ((n - bs + bs - 1) + 1 * bs) by lia.
      rewrite Nat.div_add by lia. lia.
Qed.


Lemma sample_all_seeds fanouts r (bs : list (list node)) :
  map seeds (sample_all fanouts r bs).1 = bs.
Proof.
  revert r. induction bs as [|b bs IH]; intros r; simpl; [done|].
  destruct (sample_blocks fanouts r b) as [blk r1]. specialize (IH r1).
  destruct (sample_all fanouts r1 bs) as [mbs r2]. simpl in *. by rewrite IH.
Qed.

(** A traversal is the batching of the seed order. *)
Lemma traversal_batched (dl : DataLoader) r :
  traversal dl r = batched (dl_batch_size dl) (dl_order dl r).1.
Proof.
  unfold traversal, dl_iter. destruct (dl_order dl r) as [order r1]. apply sample_all_seeds.
Qed.

Lemma dl_order_Permutation (dl : DataLoader) r :
  (dl_order dl r).1 ≡ₚ ddp_partition (dl_world_size dl) (dl_rank dl) (dl_indices dl).
Proof. unfold dl_order. destruct (dl_shuffle dl); [apply shuffle_Permutation | done]. Qed.

Lemma concat_traversal (dl : DataLoader) r :
  0 < dl_batch_size dl → concat (traversal dl r) = (dl_order dl r).1.
Proof. intros Hbs. rewrite traversal_batched. by apply batches_of_concat. Qed.

Lemma length_dl_iter (dl : DataLoader) r :
  length (dl_iter dl r).1 = length (traversal dl r).
Proof. unfold traversal. by rewrite length_map. Qed.
End PipelineFacts.

(** ** Counting orders *)





(** ** The minibatches of a run *)

Section Orderings.
Context `{Torch}.







End Orderings.

Section PipelineClaims.
Context `{Torch}.

Lemma concat_map_Permutation {A} (f h : A → list node) (l : list A) :
  (∀ a, a ∈ l → f a ≡ₚ h a) → concat (map f l) ≡ₚ concat (map h l).
Proof.
  induction l as [|a l IH]; intros Hfh; simpl; [done|].
  rewrite (Hfh a) by apply list_elem_of_here.
  apply Permutation_app_head, IH. intros b Hb. apply Hfh. by apply list_elem_of_further.
Qed.

Lemma epoch_seeds_Permutation nids fanouts N bs sh rngs r :
  0 < bs → epoch_seeds nids fanouts N bs sh rngs r ≡ₚ ddp_partition N r nids.
Proof.
  intros Hbs. unfold epoch_seeds. rewrite concat_traversal by done.
  apply dl_order_Permutation.
Qed.






End PipelineClaims.

(** ** The schedule inside the worker *)

Section Schedule.
Context `{Torch}.
Variable g : Graph.
Variable args : Args.
Variable proc_id : nat.
Variables train_dataloader val_dataloader test_dataloader : Rng → list minibatch * Rng.

(** C4: every epoch that a worker completes, leader or not, evaluated or
    not, advances the schedule by exactly one step; after [k] steps the
    rate is the initial rate times the decay factor to the power
    [floor(k / step_size)]; from 0.01 with step size 25 and factor 0.25 the
    rate after 60 epochs is 0.000625. *)
Theorem C4_learning_rate_schedule :
  (∀ epoch (st st' : state),
     epoch_body g args proc_id train_dataloader val_dataloader epoch st = inr st' →
     sched st' = StepLR_step (sched st)) ∧
  (∀ k fs (st : state),
     training_loop g args proc_id train_dataloader val_dataloader (seq 0 k)
       (init args proc_id fs) = inr st →
     last_epoch (sched st) = k ∧
     (0 < sched_stepsize args →
      (lr (sched st) == learning_rate args * sched_gamma args ^ Z.of_nat (k / sched_stepsize args))%Q)) ∧
  (∀ k initial_rate step_size decay_factor,
     0 < step_size →
     (lr (Nat.iter k StepLR_step (StepLR_init initial_rate step_size decay_factor))
      == initial_rate * decay_factor ^ Z.of_nat (k / step_size))%Q) ∧
  (lr (Nat.iter 60 StepLR_step (StepLR_init 0.01 25 0.25)) == 0.000625)%Q.
Proof.
  split; [|split; [|split]].
  - intros epoch st st' He.
    apply epoch_body_inr in He as (st1 & es & -> & Hs & _). simpl. by rewrite Hs.
  - intros k fs st Hl.
    apply training_loop_inr in Hl as (_ & _ & _ & Hs & _).
    rewrite length_seq in Hs. rewrite Hs. simpl sched.
    destruct (StepLR_iter k (learning_rate args) (sched_stepsize args) (sched_gamma args))
      as (Hl & _ & _ & Hr).
    split; [exact Hl | exact Hr].
  - intros k r0 s γ Hs. by apply StepLR_iter.
  - rewrite (proj2 (proj2 (proj2 (StepLR_iter 60 0.01 25 0.25)))) by lia. reflexivity.
Qed.
End Schedule.

(** ** Whole runs *)

Section Runs.
Context `{Torch}.

Lemma batched_nonempty bs (l : list node) : l ≠ [] → batched bs l ≠ [].
Proof. destruct l; [done|]. intros _. unfold batched. simpl. done. Qed.

Lemma dl_iter_nonempty (dl : DataLoader) r :
  dl_share dl ≠ [] → (dl_iter dl r).1 ≠ [].
Proof.
  intros Hne Hnil.
  assert (Ht : traversal dl r = []) by (unfold traversal; by rewrite Hnil).
  rewrite traversal_batched in Ht. revert Ht. apply batched_nonempty.
  intros Ho. pose proof (dl_order_Permutation dl r) as Hp. rewrite Ho in Hp.
  apply Permutation_nil_l in Hp. by apply Hne.
Qed.

Lemma dl_iter_empty (dl : DataLoader) r : dl_share dl = [] → (dl_iter dl r).1 = [].
Proof.
  intros He.
  assert (Ho : (dl_order dl r).1 = []).
  { apply Permutation_nil_r. rewrite <- He. apply dl_order_Permutation. }
  assert (Ht : traversal dl r = []) by (by rewrite traversal_batched, Ho).
  unfold traversal in Ht. by destruct ((dl_iter dl r).1).
Qed.

(** The leader's share is empty only if the seed set is. *)
Lemma leader_share_nonempty N (nids : list node) :
  0 < N → nids ≠ [] → ddp_partition N 0 nids ≠ [].
Proof.
  intros HN Hne Hnil. apply (f_equal length) in Hnil.
  rewrite length_ddp_partition in Hnil by done. unfold chunk_size in Hnil. simpl in Hnil.
  assert (0 < length nids) by (destruct nids; [done | simpl; lia]).
  pose proof (Nat.div_mod_eq (length nids) N).
  case_decide; [lia|]. nia.
Qed.

Lemma run_worker proc_id devices g args sampler fs :
  proc_id < length devices →
  parse_int_list (fan_out args) = inr sampler →
  run proc_id devices g args fs =
    worker g args proc_id
      (dl_iter (loader proc_id devices args sampler (train_nid g) true))
      (dl_iter (loader proc_id devices args sampler (val_nid g) false))
      (dl_iter (loader proc_id devices args sampler (test_nid g) false)) fs.
Proof.
  intros Hp Hf. unfold run. destruct (devices !! proc_id) eqn:E.
  - by rewrite Hf.
  - apply lookup_ge_None in E. lia.
Qed.

(** A malformed fan-out list stops a worker at line 35. *)
Lemma run_fan_out proc_id devices g args fs e :
  proc_id < length devices →
  parse_int_list (fan_out args) = inl e →
  run proc_id devices g args fs = inl e.
Proof.
  intros Hp Hf. unfold run. destruct (devices !! proc_id) eqn:E.
  - by rewrite Hf.
  - apply lookup_ge_None in E. lia.
Qed.

Variable g : Graph.
Variable args : Args.
Variable proc_id : nat.
Variables train_dataloader val_dataloader test_dataloader : Rng → list minibatch * Rng.

(** With minibatches in the train pipeline, and in the validation pipeline
    of the leader, the only thing the loop over epochs can raise is the
    modulo by a zero [log_every]. *)
Lemma training_loop_result es (st : state) :
  (∀ r, (train_dataloader r).1 ≠ []) →
  (proc_id = 0 → ∀ r, (val_dataloader r).1 ≠ []) →
  (∃ st', training_loop g args proc_id train_dataloader val_dataloader es st = inr st') ∨
  (training_loop g args proc_id train_dataloader val_dataloader es st
     = inl ZeroDivisionError_modulo ∧ proc_id = 0 ∧ log_every args = 0%Z).
Proof.
  intros Ht Hv. revert st. induction es as [|e es IH]; intros st; simpl; [by left; eexists|].
  destruct (train_dataloader (rng st)) as [mbs r] eqn:Hd.
  rewrite (epoch_body_spec g args proc_id _ _ e st mbs r Hd).
  pose proof (Ht (rng st)) as Hne. rewrite Hd in Hne. simpl in Hne.
  destruct mbs as [|mb mbs]; [done|]. rewrite validate_spec by done.
  repeat case_decide; cbn [bind]; try apply IH.
  - by right.
  - pose proof (Hv ltac:(done) (rng (set_training false (after_training r (mb :: mbs) st)))) as Hvn.
    destruct (val_dataloader _) as [[|vb vbs] r']; [done|]. cbn [fst snd bind]. apply IH.
Qed.
End Runs.

Section RunClaims.
Context `{Torch}.

Lemma length_dl_iter_ceil (dl : DataLoader) r :
  0 < dl_batch_size dl →
  length (dl_iter dl r).1 = (length (dl_share dl) + dl_batch_size dl - 1) / dl_batch_size dl.
Proof.
  intros Hbs. rewrite length_dl_iter, traversal_batched. unfold batched.
  rewrite batches_of_length by done.
  by rewrite (Permutation_length (dl_order_Permutation dl r)).
Qed.

Lemma count_train_events (mbs : list minibatch) :
  count is_train_minibatch (train_events mbs) = length mbs ∧
  count is_Print (train_events mbs) = 0 ∧
  count is_EpochLine (train_events mbs) = 0 ∧
  count is_TestAcc (train_events mbs) = 0.
Proof.
  induction mbs as [|mb mbs (I1 & I2 & I3 & I4)]; [done|].
  unfold train_events in *. simpl flat_map. rewrite !count_cons, I1, I2, I3, I4. done.
Qed.

Lemma count_eval_events p (mbs : list minibatch) :
  count is_train_minibatch (eval_events p mbs) = (if p is TrainPipe then length mbs else 0) ∧
  count is_Print (eval_events p mbs) = 0 ∧
  count is_EpochLine (eval_events p mbs) = 0 ∧
  count is_TestAcc (eval_events p mbs) = 0.
Proof.
  induction mbs as [|mb mbs (I1 & I2 & I3 & I4)]; [by destruct p|].
  unfold eval_events in *. simpl map. rewrite !count_cons, I1, I2, I3, I4.
  by destruct p.
Qed.

Lemma count_save_events args val_acc (st : state) :
  count is_train_minibatch (save_events args val_acc st) = 0 ∧
  count is_Print (save_events args val_acc st) = 0 ∧
  count is_EpochLine (save_events args val_acc st) = 0 ∧
  count is_TestAcc (save_events args val_acc st) = 0.
Proof. unfold save_events. by destruct (_ && _). Qed.

(** A run of one epoch, when the pipelines it goes through have
    minibatches. *)
Lemma worker_one_epoch g args proc_id tdl vdl sdl fs mbs r :
  epoch_range args = [0] →
  tdl (manual_seed 0) = (mbs, r) → mbs ≠ [] →
  (proc_id = 0 → log_every args ≠ 0%Z ∧ (∀ r, (vdl r).1 ≠ []) ∧ (∀ r, (sdl r).1 ≠ [])) →
  ∃ st : state,
    worker g args proc_id tdl vdl sdl fs = inr st ∧
    count is_train_minibatch (out st) = length mbs ∧
    count is_EpochLine (out st) = (if decide (proc_id = 0) then 1 else 0) ∧
    count is_TestAcc (out st) = (if decide (proc_id = 0) then 1 else 0) ∧
    (proc_id ≠ 0 → count is_Print (out st) = 0).
Proof.
  intros Hr Hd Hne Hlead. unfold worker. rewrite Hr. cbn [training_loop].
  rewrite (epoch_body_spec g args proc_id tdl vdl 0 (init args proc_id fs) mbs r Hd).
  destruct mbs as [|mb mbs]; [done|]. set (mbs' := mb :: mbs) in *.
  rewrite validate_spec by done.
  destruct (count_train_events mbs') as (T1 & T2 & T3 & T4).
  destruct (decide (proc_id = 0)) as [Hp|Hp].
  - destruct (Hlead Hp) as (Hl & Hv & Hs).
    rewrite (decide_False _ _ Hl), decide_True by (by rewrite Z.mod_0_l).
    pose proof (Hv (rng (set_training false (after_training r mbs' (init args proc_id fs))))) as Hvn.
    destruct (vdl _) as [[|vb vbs] r1]; [done|]. cbn [fst snd bind]. set (vbs' := vb :: vbs) in *.
    match goal with |- context [after_validation g args 0 ?L ?A ?M ?v ?r ?s] =>
      destruct (after_validation_spec g args 0 L A M v r s) as (Ho & _ & _ & _ & Hrng & _);
      set (st1 := after_validation g args 0 L A M v r s) in *
    end.
    rewrite final_test_spec, (decide_True _ _ Hp).
    change (rng (set_sched (StepLR_step (sched st1)) st1)) with (rng st1).
    pose proof (Hs (rng st1)) as Hsn.
    destruct (sdl (rng st1)) as [[|tb tbs] r2]; [done|]. cbn [fst snd]. set (tbs' := tb :: tbs) in *.
    eexists. split; [reflexivity|].
    cbn [out emits set_rng set_training set_sched]. rewrite Ho.
    change (out (set_training false (after_training r mbs' (init args proc_id fs))))
      with (out (init args proc_id fs) ++ train_events mbs').
    unfold init. cbn [out]. rewrite (decide_True _ _ Hp).
    rewrite !count_app, T1, T3, T4.
    destruct (count_eval_events ValPipe vbs') as (V1 & _ & V3 & V4).
    destruct (count_eval_events TestPipe tbs') as (S1 & _ & S3 & S4).
    match goal with |- context [save_events args ?a ?s] =>
      destruct (count_save_events args a s) as (K1 & _ & K3 & K4)
    end.
    rewrite V1, V3, V4, S1, S3, S4, K1, K3, K4.
    unfold count. simpl. repeat split; lia.
  - cbn [bind]. rewrite final_test_spec, (decide_False _ _ Hp).
    eexists. split; [reflexivity|].
    change (out _) with (out (init args proc_id fs) ++ train_events mbs').
    unfold init. cbn [out]. rewrite (decide_False _ _ Hp), app_nil_l, T1, T2, T3, T4. done.
Qed.

(** C8, amended: with 70 train, 15 validation and 15 test seeds, fan-out
    "2,2", batch size 10, two workers and one epoch, the run of either
    worker ends; each
    worker's share of 35 train seeds makes 4 train minibatches, 8 over the
    two workers; the leader logs one line with the validation accuracy and
    one line with the test accuracy, and the other worker prints nothing. *)
Theorem C8_toy_scenario (g : Graph) (args : Args) (d0 d1 : Z) fs :
  length (train_nid g) = 70 → length (val_nid g) = 15 → length (test_nid g) = 15 →
  fan_out args = "2,2" →
  batch_size args = 10%Z → epochs args = 1%Z → log_every args ≠ 0%Z →
  ∃ st0 st1 : state,
    run 0 [d0; d1] g args fs = inr st0 ∧
    run 1 [d0; d1] g args fs = inr st1 ∧
    count is_train_minibatch (out st0) = 4 ∧
    count is_train_minibatch (out st1) = 4 ∧
    count is_train_minibatch (out st0) + count is_train_minibatch (out st1) = 8 ∧
    count is_EpochLine (out st0) = 1 ∧
    count is_TestAcc (out st0) = 1 ∧
    count is_Print (out st1) = 0.
Proof.
  intros Ht Hv Hs Hfo Hb He Hl.
  assert (Hf : parse_int_list (fan_out args) = inr [2%Z; 2%Z]) by (by rewrite Hfo).
  set (sampler := [2%Z; 2%Z]) in *.
  assert (Hr : epoch_range args = [0]) by (unfold epoch_range; by rewrite He).
  assert (Hn : ∀ p r, p < 2 →
            length (dl_iter (loader p [d0; d1] args sampler (train_nid g) true) r).1 = 4).
  { intros p r Hp. rewrite length_dl_iter_ceil by (unfold loader; simpl; lia).
    unfold dl_share, loader. simpl. rewrite length_ddp_partition, Ht, Hb by done.
    destruct p as [|[|p]]; [done | done | lia]. }
  assert (Hlead : ∀ nids sh r, nids ≠ [] → (dl_iter (loader 0 [d0; d1] args sampler nids sh) r).1 ≠ []).
  { intros nids sh r Hne. apply dl_iter_nonempty. unfold dl_share, loader. simpl.
    apply leader_share_nonempty; [lia | done]. }
  rewrite (run_worker 0 [d0; d1] g args sampler fs ltac:(simpl; lia) Hf).
  rewrite (run_worker 1 [d0; d1] g args sampler fs ltac:(simpl; lia) Hf).
  destruct (dl_iter (loader 0 [d0; d1] args sampler (train_nid g) true) (manual_seed 0))
    as [mbs0 r0] eqn:E0.
  destruct (dl_iter (loader 1 [d0; d1] args sampler (train_nid g) true) (manual_seed 0))
    as [mbs1 r1] eqn:E1.
  pose proof (Hn 0 (manual_seed 0) ltac:(lia)) as L0. rewrite E0 in L0. simpl in L0.
  pose proof (Hn 1 (manual_seed 0) ltac:(lia)) as L1. rewrite E1 in L1. simpl in L1.
  destruct (worker_one_epoch g args 0
              (dl_iter (loader 0 [d0; d1] args sampler (train_nid g) true))
              (dl_iter (loader 0 [d0; d1] args sampler (val_nid g) false))
              (dl_iter (loader 0 [d0; d1] args sampler (test_nid g) false)) fs mbs0 r0 Hr E0)
    as (st0 & W0 & A0 & B0 & C0 & _).
  { by destruct mbs0. }
  { intros _. split; [done|]. split; intros r; apply Hlead; intros Hnil.
    - by rewrite Hnil in Hv.
    - by rewrite Hnil in Hs. }
  destruct (worker_one_epoch g args 1
              (dl_iter (loader 1 [d0; d1] args sampler (train_nid g) true))
              (dl_iter (loader 1 [d0; d1] args sampler (val_nid g) false))
              (dl_iter (loader 1 [d0; d1] args sampler (test_nid g) false)) fs mbs1 r1 Hr E1)
    as (st1 & W1 & A1 & _ & _ & D1).
  { by destruct mbs1. }
  { intros [=]. }
  exists st0, st1. rewrite A0, A1, L0, L1, B0, C0, (D1 ltac:(lia)). done.
Qed.

Lemma ddp_partition_nil N r : ddp_partition N r [] = [].
Proof. unfold ddp_partition. by rewrite drop_nil, take_nil. Qed.

(** C10: the summary of an epoch divides by the number of train
    minibatches of the worker: whenever the train loader of a worker yields
    none, the epoch raises the division by zero (lines 132-133).  The
    leader's evaluations concatenate the arrays they collected: the epoch
    raises when the validation loader yields no minibatch at an epoch that
    is logged (lines 146-147), and the final test raises when the test
    loader yields none (lines 177-178).  So a worker whose first train
    traversal is empty fails in its first epoch.  When every worker of the
    group gets at least one train minibatch at every traversal and the
    leader's validation and test loaders yield at least one, no worker
    reaches either error, and every worker ends normally unless
    [log_every] is zero.  For the loader as modelled from the design
    document, a traversal yields no minibatch exactly when the share of the
    worker is empty, and the share of the leader is empty exactly when the
    seed set is. *)
Theorem C10_nonempty_pipelines (g : Graph) (args : Args) (N : nat)
    (tdl vdl sdl : nat → Rng → list minibatch * Rng) fs :
  let outcome p := worker g args p (tdl p) (vdl p) (sdl p) fs in
  (∀ p epoch (st : state), (tdl p (rng st)).1 = [] →
     epoch_body g args p (tdl p) (vdl p) epoch st = inl ZeroDivisionError_division) ∧
  (∀ epoch (st : state) mbs r,
     tdl 0 (rng st) = (mbs, r) → mbs ≠ [] →
     log_every args ≠ 0%Z → (Z.of_nat epoch `mod` log_every args = 0)%Z →
     (vdl 0 r).1 = [] →
     epoch_body g args 0 (tdl 0) (vdl 0) epoch st = inl ValueError_concatenate) ∧
  (∀ st : state, (sdl 0 (rng st)).1 = [] →
     final_test g 0 (sdl 0) st = inl ValueError_concatenate) ∧
  (∀ p, (0 < epochs args)%Z → (tdl p (manual_seed 0)).1 = [] →
     outcome p = inl ZeroDivisionError_division) ∧
  ((∀ p r, p < N → (tdl p r).1 ≠ []) →
   (∀ r, (vdl 0 r).1 ≠ []) → (∀ r, (sdl 0 r).1 ≠ []) →
   ∀ p, p < N →
     outcome p ≠ inl ZeroDivisionError_division ∧
     outcome p ≠ inl ValueError_concatenate ∧
     (log_every args ≠ 0%Z → ∃ st, outcome p = inr st)) ∧
  (∀ (dl : DataLoader) r, 0 < dl_batch_size dl →
     ((dl_iter dl r).1 = [] ↔ dl_share dl = []) ∧
     (dl_rank dl = 0 → 0 < dl_world_size dl → dl_share dl = [] ↔ dl_indices dl = [])).
Proof.
  intros outcome.
  assert (Hdiv : ∀ p epoch (st : state), (tdl p (rng st)).1 = [] →
            epoch_body g args p (tdl p) (vdl p) epoch st = inl ZeroDivisionError_division).
  { intros p epoch st He. destruct (tdl p (rng st)) as [mbs r] eqn:Hd.
    rewrite (epoch_body_spec g args p (tdl p) (vdl p) epoch st mbs r Hd).
    simpl in He. by subst mbs. }
  split; [exact Hdiv|]. split; [|split; [|split; [|split]]].
  - intros epoch st mbs r Hd Hne Hl Hm Hv.
    rewrite (epoch_body_spec g args 0 (tdl 0) (vdl 0) epoch st mbs r Hd).
    destruct mbs as [|mb mbs]; [done|]. rewrite validate_spec by done.
    rewrite (decide_True _ _ (eq_refl 0)), (decide_False _ _ Hl), (decide_True _ _ Hm).
    change (rng (set_training false (after_training r (mb :: mbs) st))) with r.
    by rewrite Hv.
  - intros st He. rewrite final_test_spec, (decide_True _ _ (eq_refl 0)). by rewrite He.
  - intros p He Hnil. subst outcome. cbn beta. unfold worker, epoch_range.
    destruct (Z.to_nat (epochs args)) as [|n] eqn:E; [lia|].
    cbn [seq training_loop]. by rewrite Hdiv.
  - intros Ht Hv Hs p Hp. subst outcome. cbn beta. unfold worker.
    destruct (training_loop_result g args p (tdl p) (vdl p) (epoch_range args)
                (init args p fs)) as [[st' ->]|(-> & H0 & Hz)].
    { intros r. by apply Ht. }
    { intros -> r. apply Hv. }
    + cbn [bind]. rewrite final_test_spec. case_decide as H0.
      * subst p. pose proof (Hs (rng st')) as Hne.
        destruct ((sdl 0 (rng st')).1); [done|].
        repeat split; try done. by eexists.
      * repeat split; try done. by eexists.
    + cbn [bind]. repeat split; done.
  - intros dl r Hbs. split; [split|].
    + intros He. destruct (dl_share dl) as [|x share] eqn:Hs; [done|].
      exfalso. revert He. apply dl_iter_nonempty. by rewrite Hs.
    + apply dl_iter_empty.
    + intros Hr HN. unfold dl_share. rewrite Hr. split.
      * intros He. destruct (dl_indices dl) as [|x nids] eqn:Hn; [done|].
        exfalso. revert He. by apply leader_share_nonempty.
      * intros ->. apply ddp_partition_nil.
Qed.
End RunClaims.

(** ** The statements on the small instance *)

Lemma C1_checkpoint_on_strict_improvement_witness :
  (∃ st' : state,
     validate Toy.g Toy.args 0 (Toy.vdl 0) 0 2 20 0 (Toy.trained 0) = inr st' ∧
     (best_accuracy st' == 25)%Q ∧
     files st' !! "deletethis.pt"%string = Some 4 ∧
     count is_Save (out st') = 1) ∧
  write_steps Toy.args 1 [40; 55; 50; 70]%Q (Toy.start 0) = [1; 2; 4].
Proof.
  destruct (C1_checkpoint_on_strict_improvement Toy.g Toy.args 0 (Toy.vdl 0)) as [Hv Hw].
  split.
  - destruct (Hv 0 2%Q 20%Q 0%Q (Toy.trained 0)
               (Toy.vdl 0 (rng (Toy.trained 0))).1 (Toy.vdl 0 (rng (Toy.trained 0))).2)
      as (st' & E & Hb & _ & _ & Hf & Hc);
      [reflexivity | reflexivity | split; [discriminate | reflexivity]
      | reflexivity | discriminate |].
    exists st'. split; [exact E|]. split; [rewrite Hb; reflexivity|].
    split; [apply Hf; reflexivity | rewrite Hc; reflexivity].
  - apply Hw; [reflexivity | discriminate].
Defined.

Lemma C1_checkpoint_counterexample :
  ¬ (write_steps Toy.args 1 [40; 55; 50; 70]%Q (Toy.start 0) = [1; 4]).
Proof. vm_compute. discriminate. Qed.

Lemma C2_tracker_monotone_witness :
  ∃ s1 s2 : state,
    training_loop Toy.g Toy.args 0 (Toy.tdl 0) (Toy.vdl 0) (seq 0 0) (Toy.start 0) = inr s1 ∧
    training_loop Toy.g Toy.args 0 (Toy.tdl 0) (Toy.vdl 0) (seq 0 1) (Toy.start 0) = inr s2 ∧
    (best_accuracy s1 <= best_accuracy s2)%Q.
Proof.
  destruct (training_loop Toy.g Toy.args 0 (Toy.tdl 0) (Toy.vdl 0) (seq 0 1) (Toy.start 0))
    as [e|s2] eqn:E2; [vm_compute in E2; discriminate|].
  exists (Toy.start 0), s2. split; [reflexivity|]. split; [reflexivity|].
  destruct (C2_tracker_monotone Toy.g Toy.args 0 (Toy.tdl 0) (Toy.vdl 0) (Toy.sdl 0))
    as (_ & Hmono & _).
  apply (Hmono 0 1 (Toy.start 0) (Toy.start 0) s2); [lia | reflexivity | exact E2].
Defined.


Lemma C4_learning_rate_schedule_witness :
  ∃ st : state,
    training_loop Toy.g Toy.args60 0 (Toy.tdl 0) (Toy.vdl 0) (seq 0 60)
      (init Toy.args60 0 ∅) = inr st ∧
    last_epoch (sched st) = 60 ∧
    (lr (sched st) == 0.000625)%Q.
Proof.
  destruct (training_loop Toy.g Toy.args60 0 (Toy.tdl 0) (Toy.vdl 0) (seq 0 60)
              (init Toy.args60 0 ∅)) as [e|st] eqn:E; [vm_compute in E; discriminate|].
  exists st. split; [reflexivity|].
  destruct (C4_learning_rate_schedule Toy.g Toy.args60 0 (Toy.tdl 0) (Toy.vdl 0))
    as (_ & Hk & _).
  destruct (Hk 60 ∅ st E) as [Hl Hr]. split; [exact Hl|].
  rewrite Hr by (simpl; lia). reflexivity.
Defined.

Lemma C5_validation_and_log_witness :
  (∃ st' : state,
     epoch_body Toy.g Toy.args 0 (Toy.tdl 0) (Toy.vdl 0) 0 (Toy.start 0) = inr st' ∧
     count is_evaluation (out st') = 1 ∧
     count is_Print (out st') = 2) ∧
  (∃ st' : state,
     epoch_body Toy.g Toy.args 1 (Toy.tdl 1) (Toy.vdl 1) 0 (Toy.start 1) = inr st' ∧
     count is_evaluation (out st') = 0 ∧
     count is_Print (out st') = 0).
Proof.
  split.
  - destruct (train_epoch Toy.g (Toy.tdl 0) 0 (Toy.start 0)) as [e|[[[L A] M] st1]] eqn:E;
      [vm_compute in E; discriminate|].
    destruct (C5_validation_and_log Toy.g Toy.args 0 (Toy.tdl 0) (Toy.vdl 0) 0 (Toy.start 0)
                (Toy.tdl 0 (rng (Toy.start 0))).1 (Toy.tdl 0 (rng (Toy.start 0))).2
                L A M st1 eq_refl E) as [_ Hyes].
    destruct (Hyes eq_refl ltac:(split; [discriminate | reflexivity])
                (Toy.vdl 0 (Toy.tdl 0 (rng (Toy.start 0))).2).1
                (Toy.vdl 0 (Toy.tdl 0 (rng (Toy.start 0))).2).2
                eq_refl ltac:(discriminate))
      as (st' & Hb & _ & He & Hp).
    exists st'. split; [exact Hb|]. rewrite He, Hp. split; reflexivity.
  - destruct (train_epoch Toy.g (Toy.tdl 1) 0 (Toy.start 1)) as [e|[[[L A] M] st1]] eqn:E;
      [vm_compute in E; discriminate|].
    destruct (C5_validation_and_log Toy.g Toy.args 1 (Toy.tdl 1) (Toy.vdl 1) 0 (Toy.start 1)
                (Toy.tdl 1 (rng (Toy.start 1))).1 (Toy.tdl 1 (rng (Toy.start 1))).2
                L A M st1 eq_refl E) as [Hno _].
    destruct (Hno ltac:(left; discriminate)) as (st' & Hb & _ & He & Hp).
    exists st'. split; [exact Hb|]. rewrite He, Hp. split; reflexivity.
Defined.



Lemma C8_toy_scenario_witness :
  ∃ st0 st1 : state,
    run 0 Toy.devices Toy.g Toy.args ∅ = inr st0 ∧
    run 1 Toy.devices Toy.g Toy.args ∅ = inr st1 ∧
    count is_train_minibatch (out st0) + count is_train_minibatch (out st1) = 8 ∧
    count is_EpochLine (out st0) = 1 ∧
    count is_TestAcc (out st0) = 1 ∧
    count is_Print (out st1) = 0.
Proof.
  destruct (@C8_toy_scenario Toy.torch Toy.g Toy.args 0%Z 1%Z ∅)
    as (st0 & st1 & R0 & R1 & _ & _ & Hsum & He & Ht & Hp);
    [reflexivity | reflexivity | reflexivity | reflexivity | reflexivity | reflexivity
    | discriminate |].
  exists st0, st1. repeat split; assumption.
Defined.

Lemma C8_seven_minibatches_counterexample :
  ¬ (∃ st0 st1 : state,
       run 0 Toy.devices Toy.g Toy.args ∅ = inr st0 ∧
       run 1 Toy.devices Toy.g Toy.args ∅ = inr st1 ∧
       count is_train_minibatch (out st0) + count is_train_minibatch (out st1) = 7).
Proof.
  intros (st0 & st1 & R0 & R1 & Hc).
  vm_compute in R0. vm_compute in R1.
  apply (inj inr) in R0. apply (inj inr) in R1. subst st0 st1.
  vm_compute in Hc. discriminate Hc.
Qed.

Lemma C9_final_test_evaluation_witness :
  ∃ st_end : state,
    worker Toy.g Toy.args 0 (Toy.tdl 0) (Toy.vdl 0) (Toy.sdl 0) ∅ = inr st_end ∧
    count is_test_minibatch (out st_end) = 1 ∧
    count is_TestAcc (out st_end) = 1 ∧
    count is_TotalTime (out st_end) = 1.
Proof.
  destruct (worker Toy.g Toy.args 0 (Toy.tdl 0) (Toy.vdl 0) (Toy.sdl 0) ∅)
    as [e|st_end] eqn:E; [vm_compute in E; discriminate|].
  exists st_end. split; [reflexivity|].
  destruct (C9_final_test_evaluation Toy.g Toy.args 0 (Toy.tdl 0) (Toy.vdl 0) (Toy.sdl 0))
    as (_ & _ & Hw).
  destruct (Hw ∅ st_end E) as (st_loop & _ & _ & _ & _ & _ & Hm & Ha & Ht).
  rewrite Hm, Ha, Ht. repeat split.
Defined.

Lemma C10_nonempty_pipelines_witness :
  (∃ st : state, worker Toy.g Toy.args 0 (Toy.tdl 0) (Toy.vdl 0) (Toy.sdl 0) ∅ = inr st) ∧
  (∃ st : state, worker Toy.g Toy.args 1 (Toy.tdl 1) (Toy.vdl 1) (Toy.sdl 1) ∅ = inr st) ∧
  worker Toy.g Toy.args 1
    (dl_iter (loader 1 Toy.devices Toy.args Toy.sampler [] true)) (Toy.vdl 1) (Toy.sdl 1) ∅
    = inl ZeroDivisionError_division.
Proof.
  destruct (@C10_nonempty_pipelines Toy.torch Toy.g Toy.args 2 Toy.tdl Toy.vdl Toy.sdl ∅)
    as (_ & _ & _ & _ & Hok & _).
  destruct (@C10_nonempty_pipelines Toy.torch Toy.g Toy.args 2
              (λ p, dl_iter (loader p Toy.devices Toy.args Toy.sampler [] true))
              Toy.vdl Toy.sdl ∅) as (_ & _ & _ & Hdiv & _).
  assert (Hrun : ∀ p, p < 2 →
            ∃ st : state, worker Toy.g Toy.args p (Toy.tdl p) (Toy.vdl p) (Toy.sdl p) ∅
                          = inr st).
  { intros p Hp. apply Hok; [| | |exact Hp|discriminate].
    - intros q r Hq. apply dl_iter_nonempty.
      destruct q as [|[|q]]; [vm_compute; discriminate | vm_compute; discriminate | lia].
    - intros r. apply dl_iter_nonempty. vm_compute. discriminate.
    - intros r. apply dl_iter_nonempty. vm_compute. discriminate. }
  split; [apply Hrun; lia|]. split; [apply Hrun; lia|].
  apply (Hdiv 1); reflexivity.
Defined.

(** ** Device and fan-out lists *)

Example int_str_examples :
  int_str " +12 " = Some 12%Z ∧ int_str "-0" = Some 0%Z ∧ int_str "1_000" = Some 1000%Z ∧
  int_str "" = None ∧ int_str "1__0" = None ∧ int_str "_1" = None ∧ int_str "+ 1" = None ∧
  int_str "0.01" = None ∧ int_str "1 2" = None.
Proof. repeat split; reflexivity. Qed.

Example parse_int_list_examples :
  parse_int_list "0,1,2,3" = inr [0; 1; 2; 3]%Z ∧
  parse_int_list "10,15" = inr [10; 15]%Z ∧
  parse_int_list "" = inl (ValueError_int "") ∧
  parse_int_list "0,1," = inl (ValueError_int "").
Proof. repeat split; reflexivity. Qed.

Lemma str_split_nonempty sep s : str_split sep s ≠ [].
Proof. destruct s as [|c r]; simpl; [done|]. destruct (Ascii.eqb c sep); [done|]. by destruct (str_split sep r). Qed.

Lemma length_str_split sep s : length (str_split sep s) = S (count_char sep s).
Proof.
  induction s as [|c r IH]; simpl; [done|].
  destruct (Ascii.eqb c sep); simpl; [by rewrite IH|].
  pose proof (str_split_nonempty sep r). destruct (str_split sep r); [done|]. exact IH.
Qed.

(** Splitting at a separator splits the fields on its left from those on
    its right. *)
Lemma str_split_app sep s1 s2 :
  str_split sep (s1 +:+ String sep s2) = str_split sep s1 ++ str_split sep s2.
Proof.
  induction s1 as [|c r IH]; simpl.
  - by rewrite Ascii.eqb_refl.
  - rewrite IH. destruct (Ascii.eqb c sep); [done|].
    pose proof (str_split_nonempty sep r). by destruct (str_split sep r).
Qed.

Lemma str_split_none sep s : count_char sep s = 0 → str_split sep s = [s].
Proof.
  induction s as [|c r IH]; simpl; [done|].
  destruct (Ascii.eqb c sep); [done|]. intros Hc. by rewrite IH.
Qed.

Lemma int_each_inr fields zs :
  int_each fields = inr zs ↔ Forall2 (λ f z, int_str f = Some z) fields zs.
Proof.
  revert zs. induction fields as [|f fields IH]; intros zs; simpl.
  - split; [intros [= <-]; constructor | by intros ->%Forall2_nil_inv_l].
  - destruct (int_str f) as [z|] eqn:E.
    + destruct (int_each fields) as [e|zs'] eqn:E'.
      * split; [done|]. intros (z' & zs'' & _ & Hrest & ->)%Forall2_cons_inv_l.
        by apply IH in Hrest.
      * split.
        -- intros [= <-]. constructor; [done | by apply IH].
        -- intros (z' & zs'' & Hz & Hrest & ->)%Forall2_cons_inv_l.
           apply IH in Hrest. congruence.
    + split; [done|]. intros (z' & zs'' & Hz & _)%Forall2_cons_inv_l. congruence.
Qed.

Lemma int_each_inl fields e :
  int_each fields = inl e →
  ∃ good f rest, fields = good ++ f :: rest ∧ e = ValueError_int f ∧ int_str f = None ∧
                 Forall (λ f, is_Some (int_str f)) good.
Proof.
  revert e. induction fields as [|f fields IH]; intros e; simpl; [done|].
  destruct (int_str f) as [z|] eqn:E.
  - destruct (int_each fields) as [e'|zs'] eqn:E'; [|done].
    intros [= <-]. destruct (IH e' eq_refl) as (good & f' & rest & -> & -> & Hf & Hg).
    exists (f :: good), f', rest. repeat split; try done. constructor; [by rewrite E | done].
  - intros [= <-]. exists [], f, fields. by repeat split.
Qed.

Lemma int_each_bad fields f :
  f ∈ fields → int_str f = None → ∃ f', int_each fields = inl (ValueError_int f').
Proof.
  induction fields as [|f0 fields IH]; [by intros ?%elem_of_nil|].
  intros [->|Hin]%elem_of_cons Hf; simpl.
  - rewrite Hf. by eexists.
  - destruct (int_str f0); [|by eexists].
    destruct (IH Hin Hf) as [f' ->]. by eexists.
Qed.

Lemma length_parse_int_list s zs :
  parse_int_list s = inr zs → length zs = S (count_char "," s).
Proof.
  unfold parse_int_list. intros Hp%int_each_inr.
  apply Forall2_length in Hp. by rewrite length_str_split in Hp.
Qed.

(** X1: a device list or fan-out list that parses has one number per
    comma-separated field, as many as there are commas plus one, so at
    least one; each number is the [int] of its field. *)
Theorem parse_int_list_fields s zs :
  parse_int_list s = inr zs →
  length zs = S (count_char "," s) ∧ zs ≠ [] ∧
  Forall2 (λ f z, int_str f = Some z) (str_split "," s) zs.
Proof.
  intros Hp. pose proof (length_parse_int_list s zs Hp) as Hl.
  split; [done|]. split; [by destruct zs|].
  by apply int_each_inr.
Qed.

Lemma parse_int_list_fields_witness :
  length [0; 1; 2; 3]%Z = S (count_char "," "0,1,2,3") ∧ [0; 1; 2; 3]%Z ≠ [] ∧
  Forall2 (λ f z, int_str f = Some z) (str_split "," "0,1,2,3") [0; 1; 2; 3]%Z.
Proof. apply parse_int_list_fields. reflexivity. Defined.

(** X2: a list with an empty field does not parse: the empty string, a
    leading comma, a trailing comma and two commas in a row all raise
    [ValueError]; and whenever the parse raises, it is on the first field
    that is not an integer literal. *)
Theorem parse_int_list_empty_field :
  parse_int_list "" = inl (ValueError_int "") ∧
  (∀ s, ∃ f, parse_int_list (String "," s) = inl (ValueError_int f)) ∧
  (∀ s, ∃ f, parse_int_list (s +:+ ",") = inl (ValueError_int f)) ∧
  (∀ s1 s2, ∃ f, parse_int_list (s1 +:+ ",," +:+ s2) = inl (ValueError_int f)) ∧
  (∀ s e, parse_int_list s = inl e →
     ∃ good f rest, str_split "," s = good ++ f :: rest ∧ e = ValueError_int f ∧
                    int_str f = None ∧ Forall (λ f, is_Some (int_str f)) good).
Proof.
  split; [done|]. split; [|split; [|split]].
  - intros s. by eexists.
  - intros s. unfold parse_int_list.
    change (s +:+ ",") with (s +:+ String "," EmptyString). rewrite str_split_app.
    apply (int_each_bad _ EmptyString); [|done]. apply elem_of_app. right. by left.
  - intros s1 s2. unfold parse_int_list.
    change (s1 +:+ ",," +:+ s2) with (s1 +:+ String "," (String "," s2)).
    rewrite str_split_app. apply (int_each_bad _ EmptyString); [|done].
    apply elem_of_app. right. simpl. by left.
  - intros s e. apply int_each_inl.
Qed.

Lemma count_char_decimal d : count_char "," (NilEmpty.string_of_uint d) = 0.
Proof. induction d; simpl; done. Qed.

Lemma int_digits_uint d acc :
  (0 ≤ acc)%Z →
  int_digits acc (NilEmpty.string_of_uint d) = Some (Z.of_nat (Nat.of_uint_acc d (Z.to_nat acc))).
Proof.
  revert acc. induction d as [|d IH|d IH|d IH|d IH|d IH|d IH|d IH|d IH|d IH|d IH];
    intros acc Hacc; simpl NilEmpty.string_of_uint; simpl Nat.of_uint_acc.
  - simpl. by rewrite Z2Nat.id.
  - cbn [int_digits]. change (digit_of "0") with (Some 0%Z). cbv iota beta.
    rewrite IH by lia. rewrite Nat.tail_mul_spec. do 3 f_equal. lia.
  - cbn [int_digits]. change (digit_of "1") with (Some 1%Z). cbv iota beta.
    rewrite IH by lia. rewrite Nat.tail_mul_spec. do 3 f_equal. lia.
  - cbn [int_digits]. change (digit_of "2") with (Some 2%Z). cbv iota beta.
    rewrite IH by lia. rewrite Nat.tail_mul_spec. do 3 f_equal. lia.
  - cbn [int_digits]. change (digit_of "3") with (Some 3%Z). cbv iota beta.
    rewrite IH by lia. rewrite Nat.tail_mul_spec. do 3 f_equal. lia.
  - cbn [int_digits]. change (digit_of "4") with (Some 4%Z). cbv iota beta.
    rewrite IH by lia. rewrite Nat.tail_mul_spec. do 3 f_equal. lia.
  - cbn [int_digits]. change (digit_of "5") with (Some 5%Z). cbv iota beta.
    rewrite IH by lia. rewrite Nat.tail_mul_spec. do 3 f_equal. lia.
  - cbn [int_digits]. change (digit_of "6") with (Some 6%Z). cbv iota beta.
    rewrite IH by lia. rewrite Nat.tail_mul_spec. do 3 f_equal. lia.
  - cbn [int_digits]. change (digit_of "7") with (Some 7%Z). cbv iota beta.
    rewrite IH by lia. rewrite Nat.tail_mul_spec. do 3 f_equal. lia.
  - cbn [int_digits]. change (digit_of "8") with (Some 8%Z). cbv iota beta.
    rewrite IH by lia. rewrite Nat.tail_mul_spec. do 3 f_equal. lia.
  - cbn [int_digits]. change (digit_of "9") with (Some 9%Z). cbv iota beta.
    rewrite IH by lia. rewrite Nat.tail_mul_spec. do 3 f_equal. lia.
Qed.

Lemma int_str_decimal n : int_str (decimal n) = Some (Z.of_nat n).
Proof.
  unfold decimal.
  rewrite <- (DecimalNat.Unsigned.of_to n) at 2.
  assert (Hnn : Nat.to_uint n ≠ Decimal.Nil).
  { rewrite <- (DecimalNat.Unsigned.of_to n), DecimalNat.Unsigned.to_of.
    apply DecimalFacts.unorm_nonnil. }
  destruct (Nat.to_uint n) as [|d|d|d|d|d|d|d|d|d|d]; [done|..];
    unfold int_str, Nat.of_uint; simpl NilEmpty.string_of_uint; cbn [lstrip];
    match goal with |- context [is_space ?c] => change (is_space c) with false end;
    cbv iota beta;
    match goal with |- context [Ascii.eqb ?c "+"] => change (Ascii.eqb c "+") with false end;
    match goal with |- context [Ascii.eqb ?c "-"] => change (Ascii.eqb c "-") with false end;
    cbv iota beta;
    match goal with |- context [digit_of ?c] =>
      let v := eval vm_compute in (digit_of c) in change (digit_of c) with v end;
    cbv iota beta; rewrite int_digits_uint by lia;
    cbn [fmap option_fmap option_map]; rewrite Z.mul_1_l; reflexivity.
Qed.

Lemma str_split_join fields :
  fields ≠ [] → Forall (λ f, count_char "," f = 0) fields →
  str_split "," (join_commas fields) = fields.
Proof.
  induction fields as [|f fields IH]; [done|]. intros _ Hf.
  apply Forall_cons in Hf as [Hf Hfs].
  destruct fields as [|f' fields]; [by apply str_split_none|].
  change (join_commas (f :: f' :: fields)) with (f +:+ String "," (join_commas (f' :: fields))).
  rewrite str_split_app, IH, str_split_none by done. done.
Qed.

(** X3: writing a non-empty list of device numbers (or fan-outs) in
    decimal, separated by commas, and parsing it gives the list back. *)
Theorem parse_int_list_join (ns : list nat) :
  ns ≠ [] → parse_int_list (join_commas (map decimal ns)) = inr (map Z.of_nat ns).
Proof.
  intros Hne. unfold parse_int_list. rewrite str_split_join.
  - clear Hne. induction ns as [|n ns IH]; [done|]. simpl.
    by rewrite int_str_decimal, IH.
  - by destruct ns.
  - apply Forall_forall. intros f (n & -> & _)%list_elem_of_fmap. apply count_char_decimal.
Qed.

Lemma parse_int_list_join_witness :
  [0; 1; 2; 3] ≠ [] ∧
  parse_int_list (join_commas (map decimal [0; 1; 2; 3])) = inr (map Z.of_nat [0; 1; 2; 3]).
Proof. split; [discriminate | apply parse_int_list_join; discriminate]. Defined.

(** Characters an integer literal can be made of. *)
Lemma int_digits_chars s :
  ∀ acc v c, int_digits acc s = Some v → count_char c s ≠ 0 →
             is_space c = true ∨ is_Some (digit_of c) ∨ c = "_"%char.
Proof.
  assert (Hsp : ∀ s c, all_space s = true → count_char c s ≠ 0 → is_space c = true).
  { clear. induction s as [|c' r IH]; intros c; simpl; [done|].
    intros [Hc Hr]%andb_true_iff. destruct (Ascii.eqb_spec c' c) as [->|]; [done|].
    simpl. by apply IH. }
  assert (Hlen : ∀ n s, String.length s ≤ n → ∀ acc v c, int_digits acc s = Some v →
            count_char c s ≠ 0 → is_space c = true ∨ is_Some (digit_of c) ∨ c = "_"%char).
  { induction n as [|n IH]; intros t Hn acc v c; destruct t as [|c1 r]; simpl in *; try done; [lia|].
    destruct (digit_of c1) as [d|] eqn:Hd.
    - intros Hi. destruct (Ascii.eqb_spec c1 c) as [->|].
      + intros _. right. left. by rewrite Hd.
      + simpl. apply (IH r ltac:(lia) _ _ _ Hi).
    - destruct (Ascii.eqb_spec c1 "_") as [->|Hne].
      + destruct r as [|c2 r']; [done|]. destruct (digit_of c2) as [d|] eqn:Hd2; [|done].
        intros Hi. destruct (Ascii.eqb_spec "_" c) as [<-|]; [by intros; right; right|].
        simpl. destruct (Ascii.eqb_spec c2 c) as [->|].
        * intros _. right. left. by rewrite Hd2.
        * simpl. apply (IH r' ltac:(simpl in *; lia) _ _ _ Hi).
      + destruct (is_space c1 && all_space r) eqn:Ha; [|done].
        intros _ Hc. left. apply (Hsp (String c1 r) c); simpl; done. }
  intros acc v c. by apply (Hlen (String.length s) s).
Qed.

Lemma int_str_chars s z c :
  int_str s = Some z → count_char c s ≠ 0 →
  is_space c = true ∨ is_Some (digit_of c) ∨ c = "_"%char ∨ c = "+"%char ∨ c = "-"%char.
Proof.
  unfold int_str.
  assert (Hl : count_char c s ≠ 0 → is_space c = true ∨ count_char c (lstrip s) ≠ 0).
  { induction s as [|c' r IH]; simpl; [done|].
    destruct (is_space c') eqn:Hs.
    - destruct (Ascii.eqb_spec c' c) as [->|]; [by left | simpl; exact IH].
    - intros Hc. right. simpl. exact Hc. }
  intros Hi Hc. destruct (Hl Hc) as [?|Hc']; [by left|]. clear Hl Hc. revert Hi Hc'.
  generalize (lstrip s). intros t.
  assert (Hcore : ∀ sg u, match u with
            | String c0 r => match digit_of c0 with
                             | Some d => (λ v, (sg * v)%Z) <$> int_digits d r
                             | None => None end
            | EmptyString => None end = Some z →
            count_char c u ≠ 0 → is_space c = true ∨ is_Some (digit_of c) ∨ c = "_"%char).
  { intros sg [|c0 r]; [done|]. destruct (digit_of c0) as [d|] eqn:Hd; [|done].
    destruct (int_digits d r) as [v|] eqn:Hv; [|done]. intros _. simpl.
    destruct (Ascii.eqb_spec c0 c) as [->|]; [intros _; right; left; by rewrite Hd|].
    simpl. by apply (int_digits_chars r d v c). }
  destruct t as [|c0 r]; [done|].
  destruct (Ascii.eqb_spec c0 "+") as [->|Hp].
  - intros Hi. cbn [count_char]. destruct (Ascii.eqb_spec "+" c) as [<-|]; [by intros; do 3 right; left|].
    intros Hc. destruct (Hcore 1%Z r Hi Hc) as [?|[?|?]]; auto.
  - destruct (Ascii.eqb_spec c0 "-") as [->|Hm].
    + intros Hi. cbn [count_char]. destruct (Ascii.eqb_spec "-" c) as [<-|]; [by intros; do 4 right|].
      intros Hc. destruct (Hcore (-1)%Z r Hi Hc) as [?|[?|?]]; auto.
    + intros Hi Hc. destruct (Hcore 1%Z (String c0 r) Hi Hc) as [?|[?|?]]; auto.
Qed.

(** X4: [--learning_rate] and [--decay] are declared [type=int]: an
    argument with a decimal point (or any character other than digits,
    sign, underscore and whitespace) is rejected, so the only value of these
    options that is not a whole number is the default. *)
Theorem argparse_type_int_rejects_fractions (default : Q) :
  (∀ s, count_char "." s ≠ 0 →
        argparse_type_int default (Some s) = inl (SystemExit_invalid_int s)) ∧
  (∀ given q, argparse_type_int default given = inr q →
        (given = None ∧ q = default) ∨
        (∃ s z, given = Some s ∧ int_str s = Some z ∧ q = inject_Z z ∧ count_char "." s = 0)).
Proof.
  assert (Hdot : ∀ s z, int_str s = Some z → count_char "." s = 0).
  { intros s z Hs. destruct (decide (count_char "." s = 0)) as [|Hc]; [done|].
    destruct (int_str_chars s z "." Hs Hc) as [?|[[? ?]|[?|[?|?]]]]; done. }
  split.
  - intros s Hc. unfold argparse_type_int. destruct (int_str s) as [z|] eqn:E; [|done].
    by apply Hdot in E.
  - intros [s|] q; simpl; [|intros [= <-]; by left].
    destruct (int_str s) as [z|] eqn:E; [|done]. intros [= <-]. right.
    exists s, z. repeat split; try done. by eapply Hdot.
Qed.

Lemma argparse_type_int_rejects_fractions_witness :
  count_char "." "0.001" ≠ 0 ∧
  argparse_type_int 0.01 (Some "0.001") = inl (SystemExit_invalid_int "0.001") ∧
  argparse_type_int 0.01 None = inr 0.01%Q ∧
  argparse_type_int 0.01 (Some "1") = inr 1%Q.
Proof.
  split; [discriminate|]. split; [|split; reflexivity].
  apply (proj1 (argparse_type_int_rejects_fractions 0.01)). discriminate.
Defined.

(** ** The spawn *)

Section Spawn.
Context `{Torch}.

(** X5: the workers that the entry point starts.  There is one per field of
    the device list, numbered from 0, and each is handed the whole parsed
    list: so [devices[proc_id]] of line 20 is defined in every one of them
    and is the [int] of the field with the worker's number.  Every worker
    gets the same fan-out list: if it does not parse, each of them stops at
    line 35 with the same error.  If it parses, each worker runs lines
    63-181 over loaders for a group of as many workers as were started, so
    that in an epoch the started workers go, together, through every train
    seed exactly once (loader as modelled from the design document). *)
Theorem main_spawns_valid_ranks (parse_args : main_exn + Args)
    (IGBHeteroDGLDataset : Args → option Graph) fs rs :
  main parse_args IGBHeteroDGLDataset fs = inr rs →
  ∃ args g gpu_idx,
    parse_args = inr args ∧
    IGBHeteroDGLDataset args = Some g ∧
    parse_int_list (gpu_devices args) = inr gpu_idx ∧
    length rs = length gpu_idx ∧
    length rs = S (count_char "," (gpu_devices args)) ∧
    (∀ proc_id, proc_id < length rs →
       rs !! proc_id = Some (run proc_id gpu_idx g args fs) ∧
       ∃ dev_id field,
         gpu_idx !! proc_id = Some dev_id ∧
         str_split "," (gpu_devices args) !! proc_id = Some field ∧
         int_str field = Some dev_id) ∧
    (∀ e, parse_int_list (fan_out args) = inl e → Forall (λ r, r = inl e) rs) ∧
    (∀ sampler, parse_int_list (fan_out args) = inr sampler →
       (∀ proc_id, proc_id < length rs →
          rs !! proc_id =
            Some (worker g args proc_id
                    (dl_iter (loader proc_id gpu_idx args sampler (train_nid g) true))
                    (dl_iter (loader proc_id gpu_idx args sampler (val_nid g) false))
                    (dl_iter (loader proc_id gpu_idx args sampler (test_nid g) false)) fs)) ∧
       ∀ rngs : nat → Rng, (0 < batch_size args)%Z →
         concat (map (λ proc_id,
                   concat (traversal (loader proc_id gpu_idx args sampler (train_nid g) true)
                             (rngs proc_id)))
                 (seq 0 (length rs)))
         ≡ₚ train_nid g).
Proof.
  unfold main. intros Hm.
  destruct parse_args as [e|args]; [done|].
  destruct (parse_int_list (gpu_devices args)) as [e|gpu_idx] eqn:Hp; [done|].
  destruct (IGBHeteroDGLDataset args) as [g|] eqn:Hd; [|done].
  apply (inj inr) in Hm. subst rs. exists args, g, gpu_idx.
  pose proof (length_parse_int_list _ _ Hp) as Hl.
  rewrite length_map, length_seq.
  assert (Hrs : ∀ i, i < length gpu_idx →
            map (λ proc_id, run proc_id gpu_idx g args fs) (seq 0 (length gpu_idx)) !! i
            = Some (run i gpu_idx g args fs)).
  { intros i Hi. by rewrite list_lookup_fmap, lookup_seq_lt. }
  do 5 (split; [done|]). split; [|split].
  - intros i Hi. split; [by apply Hrs|].
    apply int_each_inr in Hp.
    destruct (lookup_lt_is_Some_2 gpu_idx i Hi) as [dev_id Hdev].
    destruct (Forall2_lookup_r _ _ _ _ _ Hp Hdev) as (field & Hfield & Hint).
    by exists dev_id, field.
  - intros e He. apply Forall_forall.
    intros r (i & -> & Hi%elem_of_seq)%list_elem_of_fmap.
    apply run_fan_out; [lia | done].
  - intros sampler Hs. split.
    + intros i Hi. rewrite Hrs by done. f_equal. by apply run_worker.
    + intros rngs Hbs.
      transitivity (concat (map (λ r, ddp_partition (length gpu_idx) r (train_nid g))
                              (seq 0 (length gpu_idx)))).
      * apply concat_map_Permutation. intros i _.
        apply (epoch_seeds_Permutation (train_nid g) sampler (length gpu_idx)
                 (Z.to_nat (batch_size args)) true rngs i). lia.
      * rewrite concat_partition by lia. done.
Qed.
End Spawn.

Lemma main_spawns_valid_ranks_witness :
  (∃ rs, @main Toy.torch (inr Toy.args) (λ _, Some Toy.g) ∅ = inr rs ∧ length rs = 2 ∧
         rs !! 1 = Some (run 1 [0; 1]%Z Toy.g Toy.args ∅)) ∧
  (∃ rs, @main Toy.torch (inr ToyEdge.args_badfan) (λ _, Some Toy.g) ∅ = inr rs ∧
         Forall (λ r, r = inl (ValueError_int "x")) rs).
Proof.
  split.
  - destruct (@main Toy.torch (inr Toy.args) (λ _, Some Toy.g) ∅) as [e|rs] eqn:E;
      [vm_compute in E; discriminate|].
    destruct (main_spawns_valid_ranks (inr Toy.args) (λ _, Some Toy.g) ∅ rs E)
      as (args & g & gpu_idx & Ha & Hg & Hp & Hl & Hc & Hrun & _).
    apply (inj inr) in Ha. apply (inj Some) in Hg. subst args g.
    vm_compute in Hp. apply (inj inr) in Hp. subst gpu_idx.
    exists rs. split; [reflexivity|]. split; [exact Hl|].
    apply Hrun. rewrite Hl. simpl. lia.
  - destruct (@main Toy.torch (inr ToyEdge.args_badfan) (λ _, Some Toy.g) ∅)
      as [e|rs] eqn:E; [vm_compute in E; discriminate|].
    destruct (main_spawns_valid_ranks (inr ToyEdge.args_badfan) (λ _, Some Toy.g) ∅ rs E)
      as (args & g & gpu_idx & Ha & _ & _ & _ & _ & _ & Hbad & _).
    apply (inj inr) in Ha. subst args.
    exists rs. split; [reflexivity|]. apply Hbad. reflexivity.
Defined.

(** ** Whole runs of a worker *)

Section WorkerFacts.
Context `{Torch}.
Variable g : Graph.
Variable args : Args.
Variable proc_id : nat.
Variables tdl vdl sdl : Rng → list minibatch * Rng.

(** The two ways an epoch can end without raising. *)
Lemma epoch_body_cases epoch (st st' : state) :
  epoch_body g args proc_id tdl vdl epoch st = inr st' →
  ∃ mbs r, tdl (rng st) = (mbs, r) ∧ mbs ≠ [] ∧
    let st1 := set_training false (after_training r mbs st) in
    ((proc_id ≠ 0 ∨ (log_every args ≠ 0 ∧ Z.of_nat epoch `mod` log_every args ≠ 0)%Z) ∧
     st' = set_sched (StepLR_step (sched st1)) st1) ∨
    (proc_id = 0 ∧ (log_every args ≠ 0 ∧ Z.of_nat epoch `mod` log_every args = 0)%Z ∧
     ∃ vbs r' L A, vdl r = (vbs, r') ∧ vbs ≠ [] ∧
       let st2 := after_validation g args epoch L A
                    (py_sum (train_mems epoch mbs) / inject_Z (Z.of_nat (length mbs)))%Q
                    vbs r' st1 in
       st' = set_sched (StepLR_step (sched st2)) st2).
Proof.
  destruct (tdl (rng st)) as [mbs r] eqn:Hd.
  rewrite (epoch_body_spec g args proc_id tdl vdl epoch st mbs r Hd).
  destruct mbs as [|mb mbs]; [done|]. set (mbs' := mb :: mbs).
  rewrite validate_spec by done. intros He.
  exists mbs', r. split; [done|]. split; [done|]. cbv zeta.
  destruct (decide (proc_id = 0)) as [Hp|Hp]; [|left; cbn [bind] in He; split; [by left |]; by apply (inj inr) in He].
  destruct (decide (log_every args = 0%Z)) as [Hl|Hl]; [done|].
  destruct (decide ((Z.of_nat epoch `mod` log_every args)%Z = 0%Z)) as [Hm|Hm];
    [|left; cbn [bind] in He; split; [by right |]; by apply (inj inr) in He].
  right. split; [done|]. split; [done|].
  change (rng (set_training false (after_training r mbs' st))) with r in He.
  destruct (vdl r) as [vbs r'] eqn:Hv. cbn [fst snd] in He.
  destruct vbs as [|vb vbs]; [done|]. cbn [bind] in He.
  eexists (vb :: vbs), r', _, _. split; [done|]. split; [done|]. by apply (inj inr) in He.
Qed.

Lemma overall_accuracy_bounds m (mbs : list minibatch) :
  (0 <= overall_accuracy g m mbs)%Q ∧ (overall_accuracy g m mbs <= 100)%Q.
Proof.
  unfold overall_accuracy.
  assert (Hle : length (flat_map (right_seeds g false m) mbs) ≤ length (flat_map seeds mbs)).
  { induction mbs as [|mb mbs IH]; simpl; [done|]. rewrite !length_app.
    unfold right_seeds at 1. pose proof (length_filter (λ n, argmax (scores false m mb n) = label g n) (seeds mb)).
    lia. }
  set (a := length (flat_map (right_seeds g false m) mbs)) in *.
  set (b := length (flat_map seeds mbs)) in *.
  destruct b as [|b].
  - assert (a = 0) as -> by lia. split; vm_compute; discriminate.
  - assert (Hb : (0 < inject_Z (Z.of_nat (S b)))%Q).
    { rewrite <- (Zlt_Qlt 0). lia. }
    assert (H0 : (0 <= inject_Z (Z.of_nat a) / inject_Z (Z.of_nat (S b)))%Q).
    { apply Qle_shift_div_l; [done|]. rewrite Qmult_0_l, <- (Zle_Qle 0). lia. }
    assert (H1 : (inject_Z (Z.of_nat a) / inject_Z (Z.of_nat (S b)) <= 1)%Q).
    { apply Qle_shift_div_r; [done|]. rewrite Qmult_1_l, <- Zle_Qle. lia. }
    split.
    + apply Qmult_le_0_compat; [done | discriminate].
    + apply Qle_trans with (1 * 100)%Q; [|discriminate].
      apply Qmult_le_compat_r; [done | discriminate].
Qed.
End WorkerFacts.

Section WorkerInvariants.
Context `{Torch}.
Variable g : Graph.
Variable args : Args.
Variable proc_id : nat.
Variables tdl vdl sdl : Rng → list minibatch * Rng.

(** An epoch that did not raise, field by field. *)
Lemma epoch_body_fields epoch (st st' : state) :
  epoch_body g args proc_id tdl vdl epoch st = inr st' →
  ∃ mbs, mbs ≠ [] ∧ (tdl (rng st)).1 = mbs ∧ sched st' = StepLR_step (sched st) ∧
    (((proc_id ≠ 0 ∨ (log_every args ≠ 0 ∧ Z.of_nat epoch `mod` log_every args ≠ 0)%Z) ∧
      out st' = out st ++ train_events mbs ∧
      best_accuracy st' = best_accuracy st ∧ files st' = files st) ∨
     (proc_id = 0 ∧ (log_every args ≠ 0 ∧ Z.of_nat epoch `mod` log_every args = 0)%Z ∧
      ∃ vbs v L A m1, vbs ≠ [] ∧ (0 <= v)%Q ∧ (v <= 100)%Q ∧
        let won := Qltb (best_accuracy st) v in
        let saved := won && bool_decide (model_save args ≠ 0%Z) in
        out st' = out st ++ train_events mbs ++ eval_events ValPipe vbs
                    ++ (if saved then [Save (modelpath args)] else [])
                    ++ [Print (EpochLine epoch L A v (epoch_seconds epoch)
                                 (py_sum (train_mems epoch mbs)
                                  / inject_Z (Z.of_nat (length mbs)))%Q)] ∧
        best_accuracy st' = (if won then v else best_accuracy st) ∧
        files st' = (if saved then <[modelpath args := m1]> (files st) else files st))).
Proof.
  intros (mbs & r & Hd & Hne & Hc)%epoch_body_cases. exists mbs.
  split; [done|]. split; [by rewrite Hd|]. cbv zeta in Hc.
  destruct Hc as [(Hno & ->)|(Hp & Hl & vbs & r' & L & A & Hv & Hvn & ->)].
  - split; [done|]. left. by repeat split.
  - match goal with |- context [after_validation g args epoch ?L ?A ?M ?v ?r ?s] =>
      destruct (after_validation_spec g args epoch L A M v r s) as (Ho & Hs & _ & _ & _ & Hb & Hf);
      set (st2 := after_validation g args epoch L A M v r s) in *
    end.
    cbv zeta in Ho, Hb, Hf.
    split; [cbn [sched set_sched]; by rewrite Hs|]. right. split; [done|]. split; [done|].
    eexists vbs, _, L, A, _. split; [done|].
    split; [apply overall_accuracy_bounds|]. split; [apply overall_accuracy_bounds|].
    cbv zeta. cbn [out best_accuracy files set_sched]. rewrite Ho, Hb, Hf.
    split; [|split; reflexivity]. unfold save_events.
    change (out (set_training false (after_training r mbs st))) with (out st ++ train_events mbs).
    by rewrite <- !app_assoc.
Qed.

Lemma final_test_fields (st st' : state) :
  final_test g proc_id sdl st = inr st' →
  sched st' = sched st ∧ best_accuracy st' = best_accuracy st ∧ files st' = files st ∧
  model st' = model st ∧
  ((proc_id ≠ 0 ∧ out st' = out st) ∨
   (proc_id = 0 ∧ ∃ tbs, tbs ≠ [] ∧ (sdl (rng st)).1 = tbs ∧
      out st' = out st ++ eval_events TestPipe tbs
                  ++ [Print (TestAcc (overall_accuracy g (model st) tbs));
                      Print (TotalTime total_seconds)])).
Proof.
  rewrite final_test_spec. case_decide.
  - destruct ((sdl (rng st)).1) as [|tb tbs] eqn:E; [done|]. intros <-%(inj inr).
    repeat split; try done. right. split; [done|]. by exists (tb :: tbs).
  - intros <-%(inj inr). repeat split; try done. by left.
Qed.

(** A property of the worker that holds at the start, and that epochs and
    the final test keep, holds at the end of a run. *)
Lemma worker_invariant (P : state → Prop) fs (st : state) :
  P (init args proc_id fs) →
  (∀ epoch s s', P s → epoch_body g args proc_id tdl vdl epoch s = inr s' → P s') →
  (∀ s s', P s → final_test g proc_id sdl s = inr s' → P s') →
  worker g args proc_id tdl vdl sdl fs = inr st → P st.
Proof.
  intros Hi He Hf. unfold worker.
  destruct (training_loop _ _ _ _ _ _ _) as [|s] eqn:Hl; [done|]. cbn [bind].
  apply Hf. revert Hl Hi. generalize (init args proc_id fs). generalize (epoch_range args).
  intros es. induction es as [|e es IH]; intros s0; simpl.
  - by intros [= <-].
  - destruct (epoch_body _ _ _ _ _ e s0) as [|s1] eqn:E; [done|]. cbn [bind].
    intros Hl Hs0. apply (IH s1 Hl). by eapply He.
Qed.

Lemma omap_none {A} (f : event → option A) (l : list event) :
  Forall (λ e, f e = None) l → omap f l = [].
Proof. induction 1 as [|e l He _ IH]; simpl; [done|]. by rewrite He. Qed.

Lemma train_events_shape (mbs : list minibatch) :
  Forall (λ e, (∃ s, e = Forward TrainPipe true true s) ∨ e = OptimizerStep) (train_events mbs).
Proof.
  induction mbs as [|mb mbs IH]; simpl; [constructor|].
  constructor; [left; eauto|]. constructor; [by right | exact IH].
Qed.

Lemma eval_events_shape p (mbs : list minibatch) :
  Forall (λ e, ∃ s, e = Forward p false false s) (eval_events p mbs).
Proof. induction mbs as [|mb mbs IH]; simpl; constructor; eauto. Qed.

(** What the readers of a trace see in the events of an epoch. *)
Lemma read_train_events {A} (f : event → option A) (mbs : list minibatch) :
  (∀ p t gr s, f (Forward p t gr s) = None) → f OptimizerStep = None →
  omap f (train_events mbs) = [].
Proof.
  intros Hf Ho. apply omap_none. eapply Forall_impl; [apply train_events_shape|].
  intros e [[s ->]| ->]; auto.
Qed.

Lemma read_eval_events {A} (f : event → option A) p (mbs : list minibatch) :
  (∀ p t gr s, f (Forward p t gr s) = None) → omap f (eval_events p mbs) = [].
Proof.
  intros Hf. apply omap_none. eapply Forall_impl; [apply eval_events_shape|].
  intros e [s ->]; auto.
Qed.
End WorkerInvariants.

Section WorkerProperties.
Context `{Torch}.
Variable g : Graph.
Variable args : Args.
Variable proc_id : nat.
Variables tdl vdl sdl : Rng → list minibatch * Rng.

Lemma count_train_events_none f (mbs : list minibatch) :
  (∀ p t gr s, f (Forward p t gr s) = false) → f OptimizerStep = false →
  count f (train_events mbs) = 0.
Proof.
  intros Hf Ho. apply count_none. eapply Forall_impl; [apply train_events_shape|].
  intros e [[s ->]| ->]; auto.
Qed.

Lemma count_eval_events_none f p (mbs : list minibatch) :
  (∀ p t gr s, f (Forward p t gr s) = false) → count f (eval_events p mbs) = 0.
Proof.
  intros Hf. apply count_none. eapply Forall_impl; [apply eval_events_shape|].
  intros e [s ->]; auto.
Qed.

Lemma out_init fs :
  out (init args proc_id fs) = [] ∨
  ∃ q, out (init args proc_id fs) = [Print (ModelSize q)].
Proof. unfold init. simpl. case_decide; eauto. Qed.

(** X6: at the end of a run the tracker is at least every validation
    accuracy that was logged, and it is zero or one of them: it is the best
    validation accuracy seen, or zero if none was above zero. *)
Theorem worker_tracker_is_max fs (st : state) :
  worker g args proc_id tdl vdl sdl fs = inr st → tracker_is_max st.
Proof.
  apply worker_invariant.
  - unfold tracker_is_max. split; [|by left].
    destruct (out_init fs) as [->|[q ->]]; simpl; by intros v ?%elem_of_nil.
  - intros epoch s s' [Hub Hin] (mbs & _ & _ & _ & Hc)%epoch_body_fields.
    destruct Hc as [(_ & Ho & Hb & _)|(_ & _ & vbs & v & L & A & m1 & _ & _ & _ & Ho & Hb & _)];
      unfold tracker_is_max, val_accs in *; rewrite Ho, Hb.
    + rewrite omap_app, read_train_events, app_nil_r by done. done.
    + rewrite !omap_app, read_train_events, read_eval_events by done.
      assert (omap (λ e, match e with Print (EpochLine _ _ _ v _ _) => Some v | _ => None end)
                (if Qltb (best_accuracy s) v && bool_decide (model_save args ≠ 0%Z)
                 then [Save (modelpath args)] else []) = []) as -> by (by destruct (_ && _)).
      simpl. destruct (Qltb (best_accuracy s) v) eqn:E.
      * apply Qltb_lt in E. split.
        -- intros u [Hu| ->%list_elem_of_singleton]%elem_of_app; [|apply Qle_refl].
           eapply Qle_trans; [by apply Hub | by apply Qlt_le_weak].
        -- right. apply elem_of_app. right. by apply list_elem_of_singleton.
      * apply Qltb_ge in E. split.
        -- intros u [Hu| ->%list_elem_of_singleton]%elem_of_app; [by apply Hub | done].
        -- destruct Hin as [?|?]; [by left|]. right. apply elem_of_app. by left.
  - intros s s' Hs (_ & Hb & _ & _ & Ho)%final_test_fields.
    unfold tracker_is_max, val_accs in *. rewrite Hb.
    destruct Ho as [(_ & ->)|(_ & tbs & _ & _ & ->)]; [done|].
    rewrite !omap_app, read_eval_events by done. simpl. by rewrite app_nil_r.
Qed.

(** X7: the tracker and every validation accuracy on a log line lie
    between 0 and 100. *)
Theorem worker_percentages fs (st : state) :
  worker g args proc_id tdl vdl sdl fs = inr st → percentages st.
Proof.
  apply worker_invariant.
  - unfold percentages. split; [done|]. split; [done|].
    destruct (out_init fs) as [->|[q ->]]; simpl; constructor.
  - intros epoch s s' (H0 & H1 & Hf) (mbs & _ & _ & _ & Hc)%epoch_body_fields.
    destruct Hc as [(_ & Ho & Hb & _)|(_ & _ & vbs & v & L & A & m1 & _ & Hv0 & Hv1 & Ho & Hb & _)];
      unfold percentages, val_accs in *; rewrite Ho, Hb.
    + rewrite omap_app, read_train_events, app_nil_r by done. done.
    + rewrite !omap_app, read_train_events, read_eval_events by done.
      assert (omap (λ e, match e with Print (EpochLine _ _ _ v _ _) => Some v | _ => None end)
                (if Qltb (best_accuracy s) v && bool_decide (model_save args ≠ 0%Z)
                 then [Save (modelpath args)] else []) = []) as -> by (by destruct (_ && _)).
      simpl. split; [by destruct (Qltb _ _)|]. split; [by destruct (Qltb _ _)|].
      apply Forall_app. split; [done|]. by constructor.
  - intros s s' Hs (_ & Hb & _ & _ & Ho)%final_test_fields.
    unfold percentages, val_accs in *. rewrite Hb.
    destruct Ho as [(_ & ->)|(_ & tbs & _ & _ & ->)]; [done|].
    rewrite !omap_app, read_eval_events by done. simpl. by rewrite app_nil_r.
Qed.

(** X8: a run writes to no path but [modelpath]; a worker that is not the
    leader, and any worker when [model_save] is zero, writes nothing at all
    and leaves the files as they were. *)
Theorem worker_only_checkpoint fs (st : state) :
  worker g args proc_id tdl vdl sdl fs = inr st → only_checkpoint args proc_id fs st.
Proof.
  apply worker_invariant.
  - unfold only_checkpoint. split; [done|].
    destruct (out_init fs) as [->|[q ->]]; simpl; (split; [|done]); repeat constructor; done.
  - intros epoch s s' (Hp & Hs & Hn) (mbs & _ & _ & _ & Hc)%epoch_body_fields.
    assert (Htr : Forall (λ e, ∀ p, e = Save p → p = modelpath args) (train_events mbs)).
    { eapply Forall_impl; [apply train_events_shape|]. by intros e [[? ->]| ->]. }
    destruct Hc as [(_ & Ho & _ & Hf)|(Hlead & _ & vbs & v & L & A & m1 & _ & _ & _ & Ho & _ & Hf)];
      unfold only_checkpoint; rewrite Ho, Hf.
    + split; [done|]. split; [by apply Forall_app|].
      intros Hc. destruct (Hn Hc) as [-> Hcount].
      by rewrite count_app, Hcount, count_train_events_none.
    + assert (Hev : Forall (λ e, ∀ p, e = Save p → p = modelpath args) (eval_events ValPipe vbs)).
      { eapply Forall_impl; [apply eval_events_shape|]. by intros e [? ->]. }
      split; [|split].
      * intros p Hne. destruct (_ && _); [|by apply Hp].
        rewrite lookup_insert_ne by done. by apply Hp.
      * rewrite !Forall_app. repeat split; try done.
        -- destruct (_ && _); repeat constructor. by intros p [= <-].
        -- repeat constructor. done.
      * intros [?|Hms]; [done|]. destruct (Hn (or_intror Hms)) as [-> Hcount].
        rewrite (bool_decide_eq_false_2 (model_save args ≠ 0%Z)) by (by intros ?).
        rewrite andb_false_r. split; [done|].
        by rewrite !count_app, Hcount, count_train_events_none, count_eval_events_none.
  - intros s s' (Hp & Hs & Hn) (_ & _ & Hf & _ & Ho)%final_test_fields.
    unfold only_checkpoint. rewrite Hf.
    destruct Ho as [(_ & ->)|(_ & tbs & _ & _ & ->)]; [done|].
    split; [done|]. split.
    + rewrite !Forall_app. repeat split; try done.
      * eapply Forall_impl; [apply eval_events_shape|]. by intros e [? ->].
      * repeat constructor; done.
    + intros Hc. destruct (Hn Hc) as [-> Hcount]. split; [done|].
      by rewrite !count_app, Hcount, count_eval_events_none.
Qed.

(** X9: with [model_save] on, at the end of a run either nothing was saved,
    the tracker is still zero and the files are as they were, or something
    was saved, the tracker is above zero and there is a file at
    [modelpath].  A run whose validation accuracy never rises above zero
    leaves no checkpoint. *)
Theorem worker_checkpoint_tracks fs (st : state) :
  model_save args ≠ 0%Z →
  worker g args proc_id tdl vdl sdl fs = inr st → checkpoint_tracks args fs st.
Proof.
  intros Hms. apply worker_invariant.
  - left. split; [|done]. destruct (out_init fs) as [->|[q ->]]; done.
  - intros epoch s s' Hs (mbs & _ & _ & _ & Hc)%epoch_body_fields.
    destruct Hc as [(_ & Ho & Hb & Hf)|(_ & _ & vbs & v & L & A & m1 & _ & _ & _ & Ho & Hb & Hf)];
      unfold checkpoint_tracks in *; rewrite Ho, Hb, Hf.
    + by rewrite count_app, count_train_events_none, Nat.add_0_r.
    + rewrite !count_app, count_train_events_none, count_eval_events_none by done.
      rewrite (bool_decide_eq_true_2 _ Hms), andb_true_r.
      destruct (Qltb (best_accuracy s) v) eqn:E.
      * right. apply Qltb_lt in E. split; [unfold count; simpl; lia|]. split.
        -- destruct Hs as [(_ & Hb0 & _)|(_ & Hb0 & _)].
           ++ by rewrite Hb0 in E.
           ++ by eapply Qlt_trans.
        -- rewrite lookup_insert_eq. by eexists.
      * replace (count is_Save (out s) + (0 + (0 + (count is_Save [] + count is_Save
           [Print (EpochLine epoch L A v (epoch_seconds epoch)
              (py_sum (train_mems epoch mbs) / inject_Z (Z.of_nat (length mbs))))]))))
          with (count is_Save (out s)) by (unfold count; simpl; lia).
        done.
  - intros s s' Hs (_ & Hb & Hf & _ & Ho)%final_test_fields.
    unfold checkpoint_tracks in *. rewrite Hb, Hf.
    destruct Ho as [(_ & ->)|(_ & tbs & _ & _ & ->)]; [done|].
    rewrite !count_app, count_eval_events_none by done.
    replace (count is_Save (out s) + (0 + count is_Save
               [Print (TestAcc (overall_accuracy g (model s) tbs)); Print (TotalTime total_seconds)]))
      with (count is_Save (out s)) by (unfold count; simpl; lia).
    done.
Qed.

(** X10: in a run, every forward pass on the train pipeline is made in
    training mode with gradients, and every forward pass on the validation
    and test pipelines in evaluation mode without gradients. *)
Theorem worker_modes_ok fs (st : state) :
  worker g args proc_id tdl vdl sdl fs = inr st → modes_ok st.
Proof.
  assert (Htr : ∀ mbs : list minibatch, Forall (λ e, mode_ok e = true) (train_events mbs)).
  { intros mbs. eapply Forall_impl; [apply train_events_shape|]. by intros e [[? ->]| ->]. }
  assert (Hev : ∀ p (mbs : list minibatch), p ≠ TrainPipe →
            Forall (λ e, mode_ok e = true) (eval_events p mbs)).
  { intros p mbs Hp. eapply Forall_impl; [apply eval_events_shape|].
    intros e [? ->]. by destruct p. }
  apply worker_invariant.
  - unfold modes_ok. destruct (out_init fs) as [->|[q ->]]; repeat constructor.
  - intros epoch s s' Hs (mbs & _ & _ & _ & Hc)%epoch_body_fields.
    destruct Hc as [(_ & Ho & _)|(_ & _ & vbs & v & L & A & m1 & _ & _ & _ & Ho & _)];
      unfold modes_ok in *; rewrite Ho, ?Forall_app.
    + by split.
    + repeat split; try done; [by apply Hev | by destruct (_ && _); repeat constructor
                               | by repeat constructor].
  - intros s s' Hs (_ & _ & _ & _ & Ho)%final_test_fields. unfold modes_ok in *.
    destruct Ho as [(_ & ->)|(_ & tbs & _ & _ & ->)]; [done|].
    rewrite !Forall_app. repeat split; [done | by apply Hev | by repeat constructor].
Qed.
End WorkerProperties.

Section WorkerCounts.
Context `{Torch}.
Variable g : Graph.
Variable args : Args.
Variable proc_id : nat.
Variables tdl vdl sdl : Rng → list minibatch * Rng.

Lemma train_mems_zero epoch (mbs : list minibatch) :
  cuda_is_available = false →
  (py_sum (train_mems epoch mbs) / inject_Z (Z.of_nat (length mbs)) == 0)%Q.
Proof.
  intros Hc. rewrite py_sum_total. unfold train_mems, memory_sample. rewrite Hc.
  assert (total (map (λ _ : nat * minibatch, 0%Q) (enumerate_from 0 mbs)) == 0)%Q as ->.
  { generalize (enumerate_from 0 mbs). intros l. induction l as [|x l IH]; simpl; [done|].
    rewrite IH. reflexivity. }
  unfold Qdiv. apply Qmult_0_l.
Qed.

(** X11: when [torch.cuda.is_available()] is false, the memory figure on
    every epoch line is zero. *)
Theorem worker_no_gpu_memory fs (st : state) :
  cuda_is_available = false →
  worker g args proc_id tdl vdl sdl fs = inr st → no_gpu_memory st.
Proof.
  intros Hcuda. apply worker_invariant.
  - unfold no_gpu_memory. destruct (out_init args proc_id fs) as [->|[q ->]]; constructor.
  - intros epoch s s' Hs (mbs & _ & _ & _ & Hc)%epoch_body_fields.
    destruct Hc as [(_ & Ho & _)|(_ & _ & vbs & v & L & A & m1 & _ & _ & _ & Ho & _)];
      unfold no_gpu_memory, epoch_mems in *; rewrite Ho.
    + rewrite omap_app, read_train_events, app_nil_r by done. done.
    + rewrite !omap_app, read_train_events, read_eval_events by done.
      assert (omap (λ e, match e with Print (EpochLine _ _ _ _ _ m) => Some m | _ => None end)
                (if Qltb (best_accuracy s) v && bool_decide (model_save args ≠ 0%Z)
                 then [Save (modelpath args)] else []) = []) as -> by (by destruct (_ && _)).
      simpl. apply Forall_app. split; [done|]. constructor; [|done].
      by apply train_mems_zero.
  - intros s s' Hs (_ & _ & _ & _ & Ho)%final_test_fields.
    unfold no_gpu_memory, epoch_mems in *.
    destruct Ho as [(_ & ->)|(_ & tbs & _ & _ & ->)]; [done|].
    rewrite !omap_app, read_eval_events by done. simpl. by rewrite app_nil_r.
Qed.

(** The epochs whose index [log_every] divides. *)
Lemma training_loop_logged es (st st' : state) :
  training_loop g args proc_id tdl vdl es st = inr st' →
  logged_epochs (out st') =
    logged_epochs (out st) ++
    (if decide (proc_id = 0)
     then filter (λ e, (Z.of_nat e `mod` log_every args = 0)%Z) es else []) ∧
  count is_OptimizerStep (out st') + count is_train_minibatch (out st) =
    count is_train_minibatch (out st') + count is_OptimizerStep (out st) ∧
  ∀ n, (∀ r, length (tdl r).1 = n) →
       count is_OptimizerStep (out st') = count is_OptimizerStep (out st) + length es * n.
Proof.
  revert st. induction es as [|e es IH]; intros st; simpl.
  - intros [= <-]. split; [case_decide; simpl; by rewrite app_nil_r|]. split; [lia|]. intros; lia.
  - destruct (epoch_body _ _ _ _ _ e st) as [|s1] eqn:E; [done|]. cbn [bind].
    intros (Hlog & Heq & Hn)%IH.
    apply epoch_body_fields in E as (mbs & _ & Hmbs & _ & Hc).
    assert (Ho1 : ∀ mbs : list minibatch,
              count is_OptimizerStep (train_events mbs) = length mbs ∧
              count is_train_minibatch (train_events mbs) = length mbs).
    { clear. intros mbs. induction mbs as [|mb mbs [I1 I2]]; [done|].
      unfold train_events in *. simpl flat_map. rewrite !count_cons, I1, I2. done. }
    destruct (Ho1 mbs) as [Hos Htm].
    destruct Hc as [(Hno & Ho & _)|(Hp & [Hl Hm] & vbs & v & L & A & m1 & _ & _ & _ & Ho & _)].
    + rewrite Ho in Hlog, Heq, Hn. unfold logged_epochs in *.
      rewrite omap_app, read_train_events, app_nil_r in Hlog by done.
      rewrite !count_app, ?Hos, ?Htm in Heq.
      split; [|split; [lia|]].
      * rewrite Hlog. f_equal. case_decide; [|done].
        rewrite filter_cons_False; [done|]. destruct Hno as [?|[_ ?]]; done.
      * intros n Hlen. rewrite (Hn n Hlen), count_app, Hos, <- Hmbs, Hlen. lia.
    + rewrite Ho in Hlog, Heq, Hn. unfold logged_epochs in *.
      rewrite !omap_app, read_train_events, read_eval_events in Hlog by done.
      assert (omap (λ e, match e with Print (EpochLine ep _ _ _ _ _) => Some ep | _ => None end)
                (if Qltb (best_accuracy st) v && bool_decide (model_save args ≠ 0%Z)
                 then [Save (modelpath args)] else []) = []) as Hsv by (by destruct (_ && _)).
      rewrite Hsv in Hlog. simpl in Hlog.
      assert (Hcs : ∀ f, f (Save (modelpath args)) = false →
                count f (if Qltb (best_accuracy st) v && bool_decide (model_save args ≠ 0%Z)
                         then [Save (modelpath args)] else []) = 0).
      { intros f Hf. destruct (_ && _); [|done]. by rewrite count_cons, Hf. }
      destruct (count_eval_events ValPipe vbs) as (V1 & _).
      rewrite !count_app, ?Hos, ?Htm, V1, count_eval_events_none, !Hcs in Heq by done.
      rewrite !count_cons in Heq. simpl in Heq.
      split; [|split; [unfold count in *; simpl in *; lia|]].
      * rewrite Hlog, <- app_assoc. f_equal. destruct (decide (proc_id = 0)); [|done].
        rewrite filter_cons_True by exact Hm. reflexivity.
      * intros n Hlen. rewrite (Hn n Hlen), !count_app, Hos, count_eval_events_none, Hcs by done.
        rewrite <- Hmbs, Hlen. unfold count. simpl. lia.
Qed.
End WorkerCounts.

Lemma multiple_nat (e : nat) (k : Z) :
  k ≠ 0%Z → (Z.of_nat e `mod` k = 0)%Z ↔ e `mod` Z.abs_nat k = 0.
Proof.
  intros Hk. rewrite Z.mod_divide by done. rewrite <- Z.divide_abs_l.
  rewrite <- (Zabs2Nat.id_abs k). rewrite <- Z.mod_divide by lia.
  rewrite <- Nat2Z.inj_mod. lia.
Qed.

Lemma count_multiples (k n : nat) :
  0 < k → length (filter (λ e, e `mod` k = 0) (seq 0 n)) = (n + k - 1) / k.
Proof.
  intros Hk. induction n as [|n IH].
  - simpl. symmetry. apply Nat.div_small. lia.
  - rewrite seq_S, filter_app, length_app, IH. simpl seq.
    replace (S n + k - 1) with (S (n + k - 1)) by lia.
    rewrite (div_succ (n + k - 1) k Hk).
    replace (S (n + k - 1)) with (n + 1 * k) by lia. rewrite Nat.Div0.mod_add.
    destruct (decide (n `mod` k = 0)) as [E|E].
    + by rewrite filter_cons_True.
    + by rewrite filter_cons_False.
Qed.

Lemma count_EpochLine_logged (l : list event) :
  count is_EpochLine l = length (logged_epochs l).
Proof.
  induction l as [|e l IH]; [done|]. rewrite count_cons, IH. unfold logged_epochs.
  by destruct e as [| | |[]].
Qed.

Section RunCounts.
Context `{Torch}.

(** X12: the leader logs exactly the epochs of [range(epochs)] whose index
    is a multiple of [log_every], in order, one line each, which makes
    [ceil(epochs / |log_every|)] lines; the other workers log none. *)
Theorem worker_logged_epochs g args proc_id tdl vdl sdl fs (st : state) :
  worker g args proc_id tdl vdl sdl fs = inr st →
  logged_epochs (out st) =
    (if decide (proc_id = 0)
     then filter (λ e, (Z.of_nat e `mod` log_every args = 0)%Z) (epoch_range args)
     else []) ∧
  (log_every args ≠ 0%Z →
   count is_EpochLine (out st) =
     if decide (proc_id = 0)
     then (Z.to_nat (epochs args) + Z.abs_nat (log_every args) - 1) / Z.abs_nat (log_every args)
     else 0).
Proof.
  unfold worker.
  destruct (training_loop g args proc_id tdl vdl (epoch_range args) (init args proc_id fs))
    as [|s] eqn:Hl; [done|]. cbn [bind].
  intros (_ & _ & _ & _ & Ho)%final_test_fields.
  apply training_loop_logged in Hl as (Hlog & _).
  assert (Hst : logged_epochs (out st) = logged_epochs (out s)).
  { unfold logged_epochs. destruct Ho as [(_ & ->)|(_ & tbs & _ & _ & ->)]; [done|].
    rewrite !omap_app, read_eval_events by done. simpl. by rewrite app_nil_r. }
  assert (Hi : logged_epochs (out (init args proc_id fs)) = []).
  { destruct (out_init args proc_id fs) as [->|[q ->]]; done. }
  rewrite Hi in Hlog. simpl in Hlog. rewrite Hst, Hlog. split; [done|].
  intros Hk. rewrite count_EpochLine_logged, Hst, Hlog. case_decide; [|done].
  unfold epoch_range.
  rewrite (list_filter_iff _ (λ e, e `mod` Z.abs_nat (log_every args) = 0))
    by (intros e; by apply multiple_nat).
  apply count_multiples. lia.
Qed.

(** X13: a run that ends has taken one optimizer step per train minibatch,
    [epochs] times [ceil(share / batch_size)] of them, where [share] is the
    number of train seeds of the worker. *)
Theorem run_optimizer_steps proc_id devices (g : Graph) (args : Args) fs (st : state) :
  (0 < batch_size args)%Z →
  run proc_id devices g args fs = inr st →
  let share := length (ddp_partition (length devices) proc_id (train_nid g)) in
  let per_epoch := (share + Z.to_nat (batch_size args) - 1) / Z.to_nat (batch_size args) in
  count is_OptimizerStep (out st) = Z.to_nat (epochs args) * per_epoch ∧
  count is_train_minibatch (out st) = Z.to_nat (epochs args) * per_epoch.
Proof.
  intros Hbs Hrun share per_epoch.
  assert (Hp : proc_id < length devices).
  { destruct (decide (proc_id < length devices)) as [|Hge]; [done|].
    assert (Hge' : length devices ≤ proc_id) by lia.
    unfold run in Hrun. by rewrite (proj2 (lookup_ge_None devices proc_id) Hge') in Hrun. }
  destruct (parse_int_list (fan_out args)) as [e|sampler] eqn:Hf;
    [by rewrite (run_fan_out _ _ _ _ _ e Hp Hf) in Hrun|].
  rewrite (run_worker _ _ _ _ sampler) in Hrun by done. unfold worker in Hrun.
  destruct (training_loop _ _ _ _ _ _ _) as [|s] eqn:Hl; [done|]. cbn [bind] in Hrun.
  apply final_test_fields in Hrun as (_ & _ & _ & _ & Ho).
  apply training_loop_logged in Hl as (_ & Heq & Hn).
  assert (Hlen : ∀ r, length (dl_iter (loader proc_id devices args sampler (train_nid g) true)
                                r).1 = per_epoch).
  { intros r. rewrite length_dl_iter_ceil by (unfold loader; simpl; lia). done. }
  specialize (Hn per_epoch Hlen).
  assert (Hi : count is_OptimizerStep (out (init args proc_id fs)) = 0
               ∧ count is_train_minibatch (out (init args proc_id fs)) = 0).
  { destruct (out_init args proc_id fs) as [->|[q ->]]; done. }
  destruct Hi as [Hi1 Hi2]. rewrite Hi1 in Hn, Heq. rewrite Hi2 in Heq.
  unfold epoch_range in Hn. rewrite length_seq in Hn.
  assert (count is_OptimizerStep (out st) = count is_OptimizerStep (out s)
          ∧ count is_train_minibatch (out st) = count is_train_minibatch (out s)) as [-> ->].
  { destruct Ho as [(_ & ->)|(_ & tbs & _ & _ & ->)]; [done|].
    destruct (count_eval_events TestPipe tbs) as (V1 & _).
    rewrite !count_app, V1, count_eval_events_none by done.
    rewrite !count_cons. unfold count. simpl. lia. }
  lia.
Qed.

(** X14: with [log_every] zero and at least one epoch the leader never
    finishes: it raises in its first epoch, on the modulo after the train
    loop, or before that on the mean when it has no train minibatch. *)
Theorem worker_log_every_zero g args tdl vdl sdl fs :
  log_every args = 0%Z → (0 < epochs args)%Z →
  worker g args 0 tdl vdl sdl fs =
    match (tdl (manual_seed 0)).1 with
    | [] => inl ZeroDivisionError_division
    | _ => inl ZeroDivisionError_modulo
    end.
Proof.
  intros Hl He. unfold worker, epoch_range.
  destruct (Z.to_nat (epochs args)) as [|n] eqn:En; [lia|]. simpl seq. cbn [training_loop].
  destruct (tdl (rng (init args 0 fs))) as [mbs r] eqn:Hd.
  rewrite (epoch_body_spec g args 0 tdl vdl 0 _ mbs r Hd).
  change (rng (init args 0 fs)) with (manual_seed 0) in Hd. rewrite Hd. cbn [fst].
  destruct mbs as [|mb mbs]; [done|]. rewrite validate_spec by done.
  rewrite decide_True by done. by rewrite (decide_True _ _ Hl).
Qed.

(** X15: with no epoch to run ([epochs <= 0]) the leader goes straight to
    the final test: it prints the model size, evaluates the freshly built
    module on the test pipeline and prints that accuracy and the total
    time; the tracker stays at zero, the schedule is not stepped and no file
    is written.  Another worker does nothing. *)
Theorem worker_no_epochs g args proc_id tdl vdl sdl fs :
  (epochs args <= 0)%Z →
  (proc_id ≠ 0 →
   worker g args proc_id tdl vdl sdl fs = inr (set_training false (init args proc_id fs)) ∧
   out (init args proc_id fs) = []) ∧
  (proc_id = 0 → ∀ tbs r, sdl (manual_seed 0) = (tbs, r) → tbs ≠ [] →
   ∃ st : state,
     worker g args proc_id tdl vdl sdl fs = inr st ∧
     out st = [Print (ModelSize (model_size_mb (construct (model_type args))))]
              ++ eval_events TestPipe tbs
              ++ [Print (TestAcc (overall_accuracy g (construct (model_type args)) tbs));
                  Print (TotalTime total_seconds)] ∧
     best_accuracy st = 0%Q ∧ files st = fs ∧ last_epoch (sched st) = 0 ∧
     lr (sched st) = learning_rate args).
Proof.
  intros He. unfold worker, epoch_range.
  replace (Z.to_nat (epochs args)) with 0 by lia. simpl seq. cbn [training_loop bind].
  rewrite final_test_spec. split.
  - intros Hp. rewrite (decide_False _ _ Hp). split; [done|].
    unfold init. simpl. by rewrite (decide_False _ _ Hp).
  - intros Hp tbs r Hd Hne. rewrite (decide_True _ _ Hp).
    change (rng (init args proc_id fs)) with (manual_seed 0). rewrite Hd. cbn [fst snd].
    destruct tbs as [|tb tbs]; [done|]. eexists. split; [reflexivity|].
    cbn [out emits set_rng set_training init best_accuracy files sched model].
    rewrite (decide_True _ _ Hp). by repeat split.
Qed.

(** X16: on a worker that is not the leader, a run does not depend on
    [log_every], [model_save], [modelpath] or on the validation and test
    loaders: two runs that agree on the model type, the schedule, the
    number of epochs and the train loader are the same. *)
Theorem worker_nonleader_independent g args1 args2 proc_id tdl vdl1 vdl2 sdl1 sdl2 fs :
  proc_id ≠ 0 →
  model_type args1 = model_type args2 → learning_rate args1 = learning_rate args2 →
  epochs args1 = epochs args2 → sched_stepsize args1 = sched_stepsize args2 →
  sched_gamma args1 = sched_gamma args2 →
  worker g args1 proc_id tdl vdl1 sdl1 fs = worker g args2 proc_id tdl vdl2 sdl2 fs.
Proof.
  intros Hp Hm Hlr He Hss Hg. unfold worker, epoch_range. rewrite He.
  assert (Hi : init args1 proc_id fs = init args2 proc_id fs).
  { unfold init. by rewrite Hm, Hlr, Hss, Hg. }
  rewrite Hi. generalize (init args2 proc_id fs). generalize (seq 0 (Z.to_nat (epochs args2))).
  intros es. induction es as [|e es IH]; intros st; cbn [training_loop bind].
  - by rewrite !final_test_spec, !(decide_False _ _ Hp).
  - destruct (tdl (rng st)) as [mbs r] eqn:Hd.
    rewrite (epoch_body_nonleader g args1 proc_id tdl vdl1 e st mbs r Hp Hd),
            (epoch_body_nonleader g args2 proc_id tdl vdl2 e st mbs r Hp Hd).
    destruct mbs; [done|]. cbn [bind]. apply IH.
Qed.
End RunCounts.

Lemma elem_of_nonzero_from i mask x :
  x ∈ nonzero_from i mask ↔ i ≤ x ∧ mask !! (x - i) = Some true.
Proof.
  revert i. induction mask as [|b mask IH]; intros i; simpl.
  - split; [by intros ?%elem_of_nil | by intros [_ ?]].
  - assert (Hrec : x ∈ nonzero_from (S i) mask ↔ S i ≤ x ∧ (b :: mask) !! (x - i) = Some true).
    { rewrite IH. split; intros [Hle Hx]; (split; [done|]).
      - replace (x - i) with (S (x - S i)) by lia. done.
      - replace (x - i) with (S (x - S i)) in Hx by lia. done. }
    destruct b.
    + rewrite elem_of_cons, Hrec. split.
      * intros [->|[? ?]]; [|split; [lia | done]]. split; [lia|]. by rewrite Nat.sub_diag.
      * intros [Hle Hx]. destruct (decide (x = i)) as [|Hne]; [by left|]. right. split; [lia | done].
    + rewrite Hrec. split; [intros [? ?]; split; [lia | done]|].
      intros [Hle Hx]. split; [|done]. destruct (decide (x = i)) as [->|]; [|lia].
      by rewrite Nat.sub_diag in Hx.
Qed.

Lemma nonzero_from_sorted i mask : StronglySorted lt (nonzero_from i mask).
Proof.
  revert i. induction mask as [|[] mask IH]; intros i; simpl; [constructor| |apply IH].
  constructor; [apply IH|]. apply Forall_forall. intros x Hx%nonzero_from_ge. lia.
Qed.

(** X17: the seed IDs of a pipeline are exactly the positions at which its
    mask is true, in increasing order, as many as the mask has true
    entries; so two masks that are never true at the same position give
    seed sets without a common node. *)
Theorem nonzero_spec (mask : list bool) :
  (∀ x, x ∈ nonzero mask ↔ mask !! x = Some true) ∧
  StronglySorted lt (nonzero mask) ∧
  length (nonzero mask) = length (filter (λ b, b = true) mask) ∧
  (∀ mask', (∀ i, ¬ (mask !! i = Some true ∧ mask' !! i = Some true)) →
            ∀ x, x ∈ nonzero mask → x ∉ nonzero mask').
Proof.
  assert (Hin : ∀ m x, x ∈ nonzero m ↔ m !! x = Some true).
  { intros m x. unfold nonzero. rewrite elem_of_nonzero_from, Nat.sub_0_r.
    split; [by intros [_ ?] | intros; split; [lia | done]]. }
  split; [apply Hin|]. split; [apply nonzero_from_sorted|]. split.
  - unfold nonzero. generalize 0.
    induction mask as [|[] mask IH]; intros i; cbn [nonzero_from]; [done| |].
    + rewrite filter_cons_True by done. simpl. by rewrite IH.
    + rewrite filter_cons_False by done. apply IH.
  - intros mask' Hdis x Hx Hx'. apply Hin in Hx, Hx'. by apply (Hdis x).
Qed.

(** ** The further statements on the small instance *)

Lemma parse_int_list_empty_field_witness :
  (∃ f, parse_int_list ("0" +:+ ",," +:+ "1") = inl (ValueError_int f)) ∧
  ∃ good f rest, str_split "," "0,x,1" = good ++ f :: rest ∧ int_str f = None.
Proof.
  destruct parse_int_list_empty_field as (_ & _ & _ & Hdouble & Hfirst).
  split; [apply Hdouble|].
  destruct (Hfirst "0,x,1" (ValueError_int "x") eq_refl) as (good & f & rest & Hs & _ & Hf & _).
  by exists good, f, rest.
Defined.

Lemma worker_tracker_is_max_witness :
  ∃ st : state,
    worker Toy.g Toy.args 0 (Toy.tdl 0) (Toy.vdl 0) (Toy.sdl 0) ∅ = inr st ∧
    tracker_is_max st.
Proof.
  destruct (worker Toy.g Toy.args 0 (Toy.tdl 0) (Toy.vdl 0) (Toy.sdl 0) ∅) as [e|st] eqn:E;
    [vm_compute in E; discriminate|].
  exists st. split; [reflexivity|].
  exact (worker_tracker_is_max Toy.g Toy.args 0 (Toy.tdl 0) (Toy.vdl 0) (Toy.sdl 0) ∅ st E).
Defined.

Lemma worker_percentages_witness :
  ∃ st : state,
    worker Toy.g Toy.args 0 (Toy.tdl 0) (Toy.vdl 0) (Toy.sdl 0) ∅ = inr st ∧
    percentages st.
Proof.
  destruct (worker Toy.g Toy.args 0 (Toy.tdl 0) (Toy.vdl 0) (Toy.sdl 0) ∅) as [e|st] eqn:E;
    [vm_compute in E; discriminate|].
  exists st. split; [reflexivity|].
  exact (worker_percentages Toy.g Toy.args 0 (Toy.tdl 0) (Toy.vdl 0) (Toy.sdl 0) ∅ st E).
Defined.

Lemma worker_only_checkpoint_witness :
  ∃ st : state,
    worker Toy.g Toy.args 1 (Toy.tdl 1) (Toy.vdl 1) (Toy.sdl 1) ∅ = inr st ∧
    only_checkpoint Toy.args 1 ∅ st.
Proof.
  destruct (worker Toy.g Toy.args 1 (Toy.tdl 1) (Toy.vdl 1) (Toy.sdl 1) ∅) as [e|st] eqn:E;
    [vm_compute in E; discriminate|].
  exists st. split; [reflexivity|].
  exact (worker_only_checkpoint Toy.g Toy.args 1 (Toy.tdl 1) (Toy.vdl 1) (Toy.sdl 1) ∅ st E).
Defined.

Lemma worker_checkpoint_tracks_witness :
  model_save Toy.args ≠ 0%Z ∧
  ∃ st : state,
    worker Toy.g Toy.args 0 (Toy.tdl 0) (Toy.vdl 0) (Toy.sdl 0) ∅ = inr st ∧
    checkpoint_tracks Toy.args ∅ st.
Proof.
  split; [discriminate|].
  destruct (worker Toy.g Toy.args 0 (Toy.tdl 0) (Toy.vdl 0) (Toy.sdl 0) ∅) as [e|st] eqn:E;
    [vm_compute in E; discriminate|].
  exists st. split; [reflexivity|].
  apply (worker_checkpoint_tracks Toy.g Toy.args 0 (Toy.tdl 0) (Toy.vdl 0) (Toy.sdl 0) ∅ st);
    [discriminate | exact E].
Defined.

Lemma worker_modes_ok_witness :
  ∃ st : state,
    worker Toy.g Toy.args 0 (Toy.tdl 0) (Toy.vdl 0) (Toy.sdl 0) ∅ = inr st ∧ modes_ok st.
Proof.
  destruct (worker Toy.g Toy.args 0 (Toy.tdl 0) (Toy.vdl 0) (Toy.sdl 0) ∅) as [e|st] eqn:E;
    [vm_compute in E; discriminate|].
  exists st. split; [reflexivity|].
  exact (worker_modes_ok Toy.g Toy.args 0 (Toy.tdl 0) (Toy.vdl 0) (Toy.sdl 0) ∅ st E).
Defined.

Lemma worker_no_gpu_memory_witness :
  ∃ st : state,
    worker Toy.g Toy.args 0 (Toy.tdl 0) (Toy.vdl 0) (Toy.sdl 0) ∅ = inr st ∧
    no_gpu_memory st.
Proof.
  destruct (worker Toy.g Toy.args 0 (Toy.tdl 0) (Toy.vdl 0) (Toy.sdl 0) ∅) as [e|st] eqn:E;
    [vm_compute in E; discriminate|].
  exists st. split; [reflexivity|].
  apply (worker_no_gpu_memory Toy.g Toy.args 0 (Toy.tdl 0) (Toy.vdl 0) (Toy.sdl 0) ∅ st);
    [reflexivity | exact E].
Defined.

Lemma worker_logged_epochs_witness :
  ∃ st : state,
    worker Toy.g Toy.args60 0 (Toy.tdl 0) (Toy.vdl 0) (Toy.sdl 0) ∅ = inr st ∧
    logged_epochs (out st) = [0; 5; 10; 15; 20; 25; 30; 35; 40; 45; 50; 55] ∧
    count is_EpochLine (out st) = 12.
Proof.
  destruct (worker Toy.g Toy.args60 0 (Toy.tdl 0) (Toy.vdl 0) (Toy.sdl 0) ∅) as [e|st] eqn:E;
    [vm_compute in E; discriminate|].
  exists st. split; [reflexivity|].
  destruct (worker_logged_epochs Toy.g Toy.args60 0 (Toy.tdl 0) (Toy.vdl 0) (Toy.sdl 0) ∅ st E)
    as [Hl Hc].
  split; [rewrite Hl; reflexivity | rewrite Hc by discriminate; reflexivity].
Defined.

Lemma run_optimizer_steps_witness :
  ∃ st : state,
    run 0 Toy.devices Toy.g Toy.args ∅ = inr st ∧
    count is_OptimizerStep (out st) = 4 ∧ count is_train_minibatch (out st) = 4.
Proof.
  destruct (run 0 Toy.devices Toy.g Toy.args ∅) as [e|st] eqn:E;
    [vm_compute in E; discriminate|].
  exists st. split; [reflexivity|].
  exact (@run_optimizer_steps Toy.torch 0 Toy.devices Toy.g Toy.args ∅ st eq_refl E).
Defined.

Lemma worker_log_every_zero_witness :
  worker Toy.g ToyEdge.args_nolog 0 (Toy.tdl 0) (Toy.vdl 0) (Toy.sdl 0) ∅
  = inl ZeroDivisionError_modulo.
Proof.
  rewrite (worker_log_every_zero Toy.g ToyEdge.args_nolog (Toy.tdl 0) (Toy.vdl 0) (Toy.sdl 0) ∅);
    reflexivity.
Defined.

Lemma worker_no_epochs_witness :
  ∃ st : state,
    worker Toy.g ToyEdge.args_noepoch 0 (Toy.tdl 0) (Toy.vdl 0) (Toy.sdl 0) ∅ = inr st ∧
    best_accuracy st = 0%Q ∧ files st = ∅ ∧ count is_Print (out st) = 3.
Proof.
  destruct (worker_no_epochs Toy.g ToyEdge.args_noepoch 0 (Toy.tdl 0) (Toy.vdl 0) (Toy.sdl 0) ∅)
    as [_ Hlead]; [discriminate|].
  destruct (Hlead eq_refl (Toy.sdl 0 (manual_seed 0)).1 (Toy.sdl 0 (manual_seed 0)).2)
    as (st & Hw & Ho & Hb & Hf & _); [reflexivity | discriminate |].
  exists st. split; [exact Hw|]. split; [exact Hb|]. split; [exact Hf|].
  rewrite Ho. reflexivity.
Defined.

Lemma worker_nonleader_independent_witness :
  worker Toy.g Toy.args 1 (Toy.tdl 1) (Toy.vdl 1) (Toy.sdl 1) ∅
  = worker Toy.g ToyEdge.args_nolog 1 (Toy.tdl 1) (Toy.vdl 0) (Toy.sdl 0) ∅.
Proof.
  apply worker_nonleader_independent; [discriminate | reflexivity..].
Defined.

Lemma nonzero_spec_witness :
  0 ∈ nonzero [true; false; true; false] ∧ 0 ∉ nonzero [false; true; false; true].
Proof.
  destruct (nonzero_spec [true; false; true; false]) as (Hin & _ & _ & Hdis).
  assert (H0 : 0 ∈ nonzero [true; false; true; false]) by (apply Hin; reflexivity).
  split; [exact H0|].
  apply (Hdis [false; true; false; true]); [|exact H0].
  intros [|[|[|[|i]]]] [Ht Hv]; simpl in *; discriminate.
Defined.

Section ModelUpdates.
Context `{Torch}.
Variable g : Graph.
Variable args : Args.
Variable proc_id : nat.
Variables tdl vdl sdl : Rng → list minibatch * Rng.

(** X18: an epoch changes the module by the optimizer steps of its train
    minibatches, in order, all at the rate the schedule had when the epoch
    began, and by nothing else: the validation pass, the checkpoint and the
    log line leave the module as the train loop left it, and so does the
    final test. *)
Theorem epoch_model_update :
  (∀ epoch (st st' : state),
     epoch_body g args proc_id tdl vdl epoch st = inr st' →
     model st' = model_after (lr (sched st)) (tdl (rng st)).1 (model st)) ∧
  (∀ st st' : state, final_test g proc_id sdl st = inr st' → model st' = model st).
Proof.
  split.
  - intros epoch st st' (mbs & r & Hd & _ & Hc)%epoch_body_cases.
    rewrite Hd. cbn [fst]. cbv zeta in Hc.
    destruct Hc as [(_ & ->)|(_ & _ & vbs & r' & L & A & _ & _ & ->)]; [done|].
    match goal with |- context [after_validation g args epoch ?L ?A ?M ?v ?r ?s] =>
      destruct (after_validation_spec g args epoch L A M v r s) as (_ & _ & Hm & _)
    end.
    cbn [model set_sched]. by rewrite Hm.
  - by intros st st' (_ & _ & _ & Hm & _)%final_test_fields.
Qed.
End ModelUpdates.

Lemma epoch_model_update_witness :
  ∃ st' : state,
    epoch_body Toy.g Toy.args 0 (Toy.tdl 0) (Toy.vdl 0) 0 (Toy.start 0) = inr st' ∧
    model st' = 4.
Proof.
  destruct (epoch_body Toy.g Toy.args 0 (Toy.tdl 0) (Toy.vdl 0) 0 (Toy.start 0))
    as [e|st'] eqn:E; [vm_compute in E; discriminate|].
  exists st'. split; [reflexivity|].
  rewrite (proj1 (epoch_model_update Toy.g Toy.args 0 (Toy.tdl 0) (Toy.vdl 0) (Toy.sdl 0))
             0 (Toy.start 0) st' E).
  reflexivity.
Defined.
